(** * DogeDictate: hotkey capture and settings synchronisation

    A shallow embedding of the Electron renderer scripts of DogeDictate:

    - the hotkey dialog script (default table, [loadHotkeys], [saveHotkeys],
      [resetHotkeys], [startRecording], [stopRecording], the [keydown]
      listener and the click/blur wiring),
    - the [saveSettings] function of the main settings script,
    - the [api] object that [preload.js] exposes to both windows,
    - the handlers that [main.js] registers with [ipcMain.handle].

    JavaScript strings are Rocq strings, one character per code unit.
    JavaScript objects used as maps are [gmap string _].  DOM elements are
    referred to by their [id]; the document is a map from ids to elements.
    Every handler runs to completion before the next event is handled
    (one event loop per window, no interleaving inside a handler). *)

From Stdlib Require Import QArith.
From stdpp Require Import gmap strings list fin_maps pretty.

#[local] Set Warnings "-register-all".
#[local] Open Scope string_scope.

(** ** JavaScript values *)

(** The fragment of JavaScript values that the settings blob is made of:
    [undefined], [null], booleans, strings and plain objects. *)
Inductive JsVal : Type :=
  | JUndefined
  | JNull
  | JBool (b : bool)
  | JStr (s : string)
  | JObj (o : gmap string JsVal).

(** A settings blob is a plain object. *)
Abbreviation Blob := (gmap string JsVal).

(** ToBoolean. *)
Definition truthy (v : JsVal) : bool :=
  match v with
  | JUndefined | JNull => false
  | JBool b => b
  | JStr s => negb (String.eqb s "")
  | JObj _ => true
  end.

(** [a || b]. *)
Definition js_or (a b : JsVal) : JsVal := if truthy a then a else b.

(** ToString, as applied when a value is assigned to the [value] property of
    an element ([null] becomes the empty string there). *)
Definition to_value_string (v : JsVal) : string :=
  match v with
  | JUndefined => "undefined"
  | JNull => ""
  | JBool true => "true"
  | JBool false => "false"
  | JStr s => s
  | JObj _ => "[object Object]"
  end.

(** ToString. *)
Definition to_string (v : JsVal) : string :=
  match v with
  | JNull => "null"
  | _ => to_value_string v
  end.

(** The value sanitization of a single-line input ([type=text],
    [type=password]): line feeds and carriage returns are removed. *)
Definition is_newline (c : Ascii.ascii) : bool :=
  bool_decide (Ascii.nat_of_ascii c ∈ [10; 13]).

Fixpoint strip_newlines (s : string) : string :=
  match s with
  | EmptyString => EmptyString
  | String c rest =>
      if is_newline c then strip_newlines rest
      else String c (strip_newlines rest)
  end.

(** A string without line break, as the value of such an input is. *)
Definition single_line (s : string) : Prop := strip_newlines s = s.

Fixpoint chars (s : string) : list string :=
  match s with
  | EmptyString => []
  | String c rest => String c EmptyString :: chars rest
  end.

(** [Object.entries(v)]; [None] stands for the TypeError raised on
    [undefined] and [null].  A string lists its characters by index. *)
Definition object_entries (v : JsVal) : option (list (string * JsVal)) :=
  match v with
  | JUndefined | JNull => None
  | JBool _ => Some []
  | JStr s => Some (imap (fun i c => (pretty i, JStr c)) (chars s))
  | JObj o => Some (map_to_list o)
  end.

(** [Array.prototype.join]. *)
Fixpoint join (sep : string) (l : list string) : string :=
  match l with
  | [] => ""
  | [x] => x
  | x :: rest => x ++ sep ++ join sep rest
  end.

(** ** The document of the hotkey dialog *)

(** What the scripts read and write on an element: its [value] and whether
    its class list holds ['recording']. *)
Record Element := { value : string; recording : bool }.

Abbreviation Document := (gmap string Element).

(** [document.querySelectorAll('.hotkey-input')], in document order. *)
Definition hotkeyInputs : list string :=
  ["push-to-talk"; "toggle-hands-free"; "toggle-bar";
   "switch-en"; "switch-pt"; "switch-es"].

Definition defaultHotkeys : gmap string string :=
  list_to_map
    [("push-to-talk", "Alt+Space");
     ("toggle-hands-free", "Alt+H");
     ("toggle-bar", "Alt+B");
     ("switch-en", "Alt+1");
     ("switch-pt", "Alt+2");
     ("switch-es", "Alt+3")].

(** [defaultHotkeys[id]]. *)
Definition default_of (id : string) : JsVal :=
  match defaultHotkeys !! id with
  | Some s => JStr s
  | None => JUndefined
  end.

(** The elements with an [id] in the dialog's markup: six read-only inputs
    without a [value] attribute and the two buttons. *)
Definition blank : Element := {| value := ""; recording := false |}.

Definition initial_doc : Document :=
  list_to_map
    (map (fun id => (id, blank))
         (hotkeyInputs ++ ["reset-hotkeys"; "save-hotkeys"])).

(** [input.value] for the element with the given id. *)
Definition field (d : Document) (id : string) : string :=
  match d !! id with
  | Some el => value el
  | None => ""
  end.

(** [input.classList.contains('recording')]. *)
Definition marked (d : Document) (id : string) : bool :=
  match d !! id with
  | Some el => recording el
  | None => false
  end.

Definition set_value (id v : string) (d : Document) : Document :=
  alter (fun el => {| value := v; recording := recording el |}) id d.

Definition set_recording (id : string) (b : bool) (d : Document) : Document :=
  alter (fun el => {| value := value el; recording := b |}) id d.

(** The six inputs of [hotkeyInputs] are elements of the document. *)
Definition has_inputs (d : Document) : Prop :=
  ∀ id, id ∈ hotkeyInputs → is_Some (d !! id).

(** ** Key events *)

Record KeyEvent := {
  ctrlKey : bool;
  altKey : bool;
  shiftKey : bool;
  key : string
}.

(** ** The preload bridge *)

(** What a method of [window.api] does when called: [ipcRenderer.invoke] on a
    channel, [ipcRenderer.send] on a channel, or registering / removing a
    listener. *)
Inductive Bridge :=
  | Invoke (channel : string)
  | Send (channel : string)
  | Subscribe
  | Unsubscribe.

(** The object passed to [contextBridge.exposeInMainWorld('api', ...)]. *)
Definition api : list (string * Bridge) :=
  [("getSettings", Invoke "get-settings");
   ("saveSettings", Invoke "save-settings");
   ("getMicrophones", Invoke "get-microphones");
   ("testMicrophone", Invoke "test-microphone");
   ("testService", Invoke "test-service");
   ("startDictation", Invoke "start-dictation");
   ("stopDictation", Invoke "stop-dictation");
   ("minimizeWindow", Send "minimize-window");
   ("maximizeWindow", Send "maximize-window");
   ("closeWindow", Send "close-window");
   ("on", Subscribe);
   ("off", Unsubscribe)].

(** [window.api[name]]. *)
Definition api_method (name : string) : option Bridge :=
  (list_to_map api : gmap string Bridge) !! name.

(** ** The main process *)

(** The outcome of [await ipcRenderer.invoke(...)]. *)
Inductive Reply (A : Type) :=
  | Resolved (a : A)
  | Rejected (reason : string).
Arguments Resolved {A} a.
Arguments Rejected {A} reason.

(** A microphone as the main process reports it. *)
Record Mic := { mic_id : string; mic_name : string }.

(** What the handlers of main.js return. *)
Inductive Returned :=
  | RSettings (s : option Blob)            (* store.get('settings') *)
  | RTrue                                  (* true *)
  | RMicrophones (mics : list Mic)         (* [] *)
  | RMicTest (success : bool) (level : Q)  (* { success, level } *)
  | RServiceTest (success : bool) (message : string).
                                           (* { success, message } *)

(** The handlers that main.js registers with [ipcMain.handle], by channel:
    what the call returns and what the store holds afterwards; [None] for a
    channel without a handler.  [persisted] is what the electron-store
    instance holds under the key ['settings'] ([None]: nothing, and
    [store.get] returns [undefined]).  [store.set] replaces it; it throws a
    TypeError when the value is [undefined], which rejects the call. *)
Definition ipcMain_handle (channel : string) (arg : option Blob)
    (persisted : option Blob) : option (Reply Returned * option Blob) :=
  if String.eqb channel "get-settings"
  then Some (Resolved (RSettings persisted), persisted)
  else if String.eqb channel "save-settings"
  then Some (match arg with
             | Some settings => (Resolved RTrue, Some settings)
             | None =>
                 (Rejected "TypeError: Use `delete()` to clear values",
                  persisted)
             end)
  else if String.eqb channel "get-microphones"
  then Some (Resolved (RMicrophones []), persisted)
  else if String.eqb channel "test-microphone"
  then Some (Resolved (RMicTest true (1 # 2)), persisted)
  else if String.eqb channel "test-service"
  then Some (Resolved (RServiceTest true "Service connection successful"),
             persisted)
  else if String.eqb channel "start-dictation"
  then Some (Resolved RTrue, persisted)
  else if String.eqb channel "stop-dictation"
  then Some (Resolved RTrue, persisted)
  else None.

(** The main process as a window sees it through [ipcRenderer.invoke]: given
    a channel, the argument of the call and the persisted blob ([None] when
    nothing was persisted yet), a reply and the persisted blob afterwards.
    A resolved reply is given by the settings object it carries, [None]
    when it carries none. *)
Definition Handler : Type :=
  string → option Blob → option Blob → Reply (option Blob) * option Blob.

(** The settings object in a returned value. *)
Definition returned_settings (r : Returned) : option Blob :=
  match r with
  | RSettings s => s
  | _ => None
  end.

(** main.js behind [ipcRenderer.invoke]; a call on a channel without a
    handler is rejected. *)
Definition mainProcess : Handler :=
  fun channel arg blob =>
    match ipcMain_handle channel arg blob with
    | Some (Resolved r, blob') => (Resolved (returned_settings r), blob')
    | Some (Rejected e, blob') => (Rejected e, blob')
    | None =>
        (Rejected ("No handler registered for '" ++ channel ++ "'"), blob)
    end.

(** ** The state of a window and of its host *)

Record World := {
  doc : Document;                 (* the elements of the window *)
  isRecording : bool;
  currentInput : option string;   (* the id of the referenced input *)
  console : list string;          (* console.error lines, latest first *)
  prevented : nat;                (* key events with preventDefault called *)
  store : option Blob;            (* the persisted blob, main process *)
  ipc_log : list (string * option Blob)
                                 (* messages sent over IPC, latest first *)
}.

Definition with_doc (d : Document) (w : World) : World :=
  {| doc := d; isRecording := isRecording w; currentInput := currentInput w;
     console := console w; prevented := prevented w; store := store w;
     ipc_log := ipc_log w |}.

Definition with_session (r : bool) (c : option string) (w : World) : World :=
  {| doc := doc w; isRecording := r; currentInput := c;
     console := console w; prevented := prevented w; store := store w;
     ipc_log := ipc_log w |}.

Definition with_console (l : list string) (w : World) : World :=
  {| doc := doc w; isRecording := isRecording w; currentInput := currentInput w;
     console := l; prevented := prevented w; store := store w;
     ipc_log := ipc_log w |}.

Definition with_prevented (n : nat) (w : World) : World :=
  {| doc := doc w; isRecording := isRecording w; currentInput := currentInput w;
     console := console w; prevented := n; store := store w;
     ipc_log := ipc_log w |}.

Definition with_host (s : option Blob) (l : list (string * option Blob))
    (w : World) : World :=
  {| doc := doc w; isRecording := isRecording w; currentInput := currentInput w;
     console := console w; prevented := prevented w; store := s;
     ipc_log := l |}.

(** A freshly opened hotkey dialog over a given persisted blob. *)
Definition init (blob : option Blob) : World :=
  {| doc := initial_doc; isRecording := false; currentInput := None;
     console := []; prevented := 0; store := blob; ipc_log := [] |}.

(** The state of the recording session: the capturing field, if any. *)
Definition session (w : World) : option string :=
  if isRecording w then currentInput w else None.

(** ** Handlers that may throw *)

Inductive Outcome (A : Type) :=
  | Ok (a : A)
  | Throw (err : string).
Arguments Ok {A} a.
Arguments Throw {A} err.

Definition M (A : Type) : Type := World → Outcome A * World.

#[global] Instance M_ret : MRet M := fun A a w => (Ok a, w).

#[global] Instance M_bind : MBind M := fun A B k m w =>
  match m w with
  | (Ok a, w') => k a w'
  | (Throw e, w') => (Throw e, w')
  end.

Definition throw {A} (e : string) : M A := fun w => (Throw e, w).

Definition update (f : World → World) : M unit := fun w => (Ok tt, f w).

Definition get_doc : M Document := fun w => (Ok (doc w), w).

(** [try { body } catch (error) { handler(error) }] as a state change. *)
Definition try_catch (body : M unit) (handler : string → World → World)
    : World → World :=
  fun w =>
    match body w with
    | (Ok _, w') => w'
    | (Throw e, w') => handler e w'
    end.

(** [console.error(label, error)]. *)
Definition console_error (label err : string) (w : World) : World :=
  with_console ((label ++ " " ++ err) :: console w) w.

Section Renderer.

(** [String.prototype.toUpperCase] is a built-in of the JavaScript engine;
    the development is parametric in it. *)
Context (toUpperCase : string → string).

(** The main process behind the bridge. *)
Context (gw : Handler).

(** ** Calling the bridge *)

(** [await window.api[name](arg)]: a TypeError when the bridge has no such
    method; otherwise the message goes over IPC. *)
Definition window_api (name : string) (arg : option Blob) : M (option Blob) :=
  match api_method name with
  | None => throw ("TypeError: window.api." ++ name ++ " is not a function")
  | Some (Invoke channel) =>
      fun w =>
        let '(reply, blob) := gw channel arg (store w) in
        let w' := with_host blob ((channel, arg) :: ipc_log w) w in
        match reply with
        | Resolved r => (Ok r, w')
        | Rejected e => (Throw e, w')
        end
  | Some (Send channel) =>
      fun w => (Ok None, with_host (store w) ((channel, arg) :: ipc_log w) w)
  | Some Subscribe | Some Unsubscribe => mret None
  end.

(** ** The hotkey dialog *)

(** [input.value || defaultHotkeys[input.id]]. *)
Definition value_or_default (d : Document) (id : string) : JsVal :=
  js_or (JStr (field d id)) (default_of id).

(** The object built by the [forEach] of [saveHotkeys]. *)
Definition collect_hotkeys (d : Document) : Blob :=
  foldl (fun hotkeys id => <[id := value_or_default d id]> hotkeys)
        ∅ hotkeyInputs.

(** [element.value = v], as the element with the given id keeps it.  The
    six inputs are text inputs: [null] becomes the empty string and line
    breaks are stripped.  The other elements with an id in the markup are
    the two buttons, whose [value] is the string of what is assigned. *)
Definition value_assigned (id : string) (v : JsVal) : string :=
  if bool_decide (id ∈ hotkeyInputs)
  then strip_newlines (to_value_string v)
  else to_string v.

(** The callback of the [forEach] of [loadHotkeys]. *)
Definition load_entry (d : Document) (entry : string * JsVal) : Document :=
  let '(id, v) := entry in
  match d !! id with
  | Some _ => set_value id (value_assigned id v) d
  | None => d
  end.

Definition loadHotkeys : World → World :=
  try_catch
    (settings ← window_api "getSettings" None;
     let hotkeys :=
       js_or (default JUndefined (settings ≫= (.!! "hotkeys")))
             (JObj (JStr <$> defaultHotkeys)) in
     match object_entries hotkeys with
     | None => throw "TypeError: Cannot convert undefined or null to object"
     | Some entries =>
         update (fun w => with_doc (foldl load_entry (doc w) entries) w)
     end)
    (console_error "Error loading hotkeys:").

Definition saveHotkeys : World → World :=
  try_catch
    (d ← get_doc;
     let hotkeys := collect_hotkeys d in
     reply ← window_api "getSettings" None;
     let settings := default ∅ reply in
     let settings := <["hotkeys" := JObj hotkeys]> settings in
     window_api "saveSettings" (Some settings);;
     window_api "closeHotkeyDialog" None;;
     mret tt)
    (console_error "Error saving hotkeys:").

Definition resetHotkeys (w : World) : World :=
  with_doc
    (foldl (fun d id => set_value id (to_value_string (default_of id)) d)
           (doc w) hotkeyInputs)
    w.

Definition stopRecording (w : World) : World :=
  let d :=
    match currentInput w with
    | Some id =>
        let d :=
          if String.eqb (field (doc w) id) "Recording..."
          then set_value id (to_value_string (default_of id)) (doc w)
          else doc w in
        set_recording id false d
    | None => doc w
    end in
  with_session false None (with_doc d w).

Definition startRecording (input : string) (w : World) : World :=
  let w := if isRecording w then stopRecording w else w in
  with_session true (Some input)
    (with_doc (set_recording input true
                 (set_value input "Recording..." (doc w))) w).

(** The array [keys] built by the [keydown] listener. *)
Definition chord_keys (e : KeyEvent) : list string :=
  (if ctrlKey e then ["Ctrl"] else []) ++
  (if altKey e then ["Alt"] else []) ++
  (if shiftKey e then ["Shift"] else []) ++
  (if bool_decide (key e ∈ ["Control"; "Alt"; "Shift"]) then []
   else [if Nat.eqb (String.length (key e)) 1
         then toUpperCase (key e) else key e]).

(** The string the listener commits, if it commits one. *)
Definition hotkeyString (e : KeyEvent) : option string :=
  let keys := chord_keys e in
  if Nat.ltb 0 (length keys) then Some (join "+" keys) else None.

Definition keydown (e : KeyEvent) (w : World) : World :=
  if negb (isRecording w) then w
  else
    let w := with_prevented (S (prevented w)) w in
    match hotkeyString e with
    | Some s =>
        match currentInput w with
        | Some id => stopRecording (with_doc (set_value id s (doc w)) w)
        | None => w   (* TypeError on [null]: the listener is abandoned *)
        end
    | None => w
    end.

(** ** The main settings window *)

(** The controls that [saveSettings] of the main window reads. *)
Record MainForm := {
  interactionSounds : bool;
  muteAudio : bool;
  autoLearn : bool;
  outputLanguage : string;
  recognitionService : string;
  whisperKey : string;
  azureKey : string;
  azureRegion : string;
  googleCredentials : string
}.

(** The four text fields hold no line break, as the values of password and
    text inputs do. *)
Definition single_line_texts (f : MainForm) : Prop :=
  single_line (whisperKey f) ∧ single_line (azureKey f) ∧
  single_line (azureRegion f) ∧ single_line (googleCredentials f).

(** The object literal built by [saveSettings]. *)
Definition main_settings (f : MainForm) : Blob :=
  list_to_map
    [("interactionSounds", JBool (interactionSounds f));
     ("muteAudio", JBool (muteAudio f));
     ("autoLearn", JBool (autoLearn f));
     ("outputLanguage", JStr (outputLanguage f));
     ("recognitionService", JStr (recognitionService f));
     ("whisperKey", JStr (whisperKey f));
     ("azureKey", JStr (azureKey f));
     ("azureRegion", JStr (azureRegion f));
     ("googleCredentials", JStr (googleCredentials f))].

Definition saveSettings (f : MainForm) : World → World :=
  try_catch
    (window_api "saveSettings" (Some (main_settings f));;
     mret tt)
    (console_error "Error saving settings:").

(** ** Events *)

(** What can happen to the dialog: the listeners registered by its script,
    and a save made meanwhile by the main window on the shared blob. *)
Inductive Event :=
  | Click (id : string)
  | Blur (id : string)
  | KeyDown (e : KeyEvent)
  | ResetClick (confirmed : bool)
  | SaveClick
  | DOMContentLoaded
  | MainWindowSave (f : MainForm).

Definition handle (ev : Event) (w : World) : World :=
  match ev with
  | Click id =>
      if bool_decide (id ∈ hotkeyInputs) then startRecording id w else w
  | Blur id =>
      if bool_decide (id ∈ hotkeyInputs) then stopRecording w else w
  | KeyDown e => keydown e w
  | ResetClick confirmed => if confirmed then resetHotkeys w else w
  | SaveClick => saveHotkeys w
  | DOMContentLoaded => loadHotkeys w
  | MainWindowSave f =>
      (* another window: only the host side is shared with the dialog *)
      let w' := saveSettings f w in
      with_host (store w') (ipc_log w') w
  end.

(** The events of a trace, handled in order. *)
Definition run (evs : list Event) (w : World) : World :=
  foldl (fun w ev => handle ev w) w evs.

End Renderer.

(** An upper-casing of the letters [a] to [z], standing in for the built-in
    on plain ASCII input when a handler is evaluated on a concrete event. *)
Definition ascii_upper (c : Ascii.ascii) : Ascii.ascii :=
  let n := Ascii.nat_of_ascii c in
  if (Nat.leb 97 n && Nat.leb n 122)%bool then Ascii.ascii_of_nat (n - 32) else c.

Fixpoint asciiToUpperCase (s : string) : string :=
  match s with
  | EmptyString => EmptyString
  | String c rest => String (ascii_upper c) (asciiToUpperCase rest)
  end.

(** ** Chords as the user presses them *)

Inductive Modifier := Ctrl | Alt | Shift.

#[global] Instance Modifier_eq_dec : EqDecision Modifier.
Proof. solve_decision. Defined.

Definition modifier_token (m : Modifier) : string :=
  match m with
  | Ctrl => "Ctrl"
  | Alt => "Alt"
  | Shift => "Shift"
  end.

(** The key identifiers of the three modifier keys. *)
Definition modifier_keys : list string := ["Control"; "Alt"; "Shift"].

(** The key-down event of the key [K] while the modifiers listed in [M] are
    held; [M] lists them in the order in which they were pressed. *)
Definition chord_event (M : list Modifier) (K : string) : KeyEvent :=
  {| ctrlKey := bool_decide (Ctrl ∈ M);
     altKey := bool_decide (Alt ∈ M);
     shiftKey := bool_decide (Shift ∈ M);
     key := K |}.

(** Whether an event carries the flag of a modifier. *)
Definition held (e : KeyEvent) (m : Modifier) : bool :=
  match m with
  | Ctrl => ctrlKey e
  | Alt => altKey e
  | Shift => shiftKey e
  end.

(** ** Readings of the persisted blob *)

(** [blob.hotkeys[id]] when the blob has a hotkeys object holding [id]. *)
Definition persisted_hotkey (blob : option Blob) (id : string) : option JsVal :=
  match blob with
  | Some b =>
      match b !! "hotkeys" with
      | Some (JObj hk) => hk !! id
      | _ => None
      end
  | None => None
  end.

(** ** The invariant of the recording session *)

(** The flag and the reference agree, the reference is one of the six
    inputs, and an element carries the ['recording'] class exactly when it
    is the referenced input. *)
Definition session_inv (w : World) : Prop :=
  has_inputs (doc w) ∧
  (isRecording w = true ↔ is_Some (currentInput w)) ∧
  (∀ id, currentInput w = Some id → id ∈ hotkeyInputs) ∧
  (∀ id, marked (doc w) id = true ↔ currentInput w = Some id).

(** ** Sample states *)

(** Alt held, the key [4] pressed. *)
Definition alt_4 : KeyEvent :=
  {| ctrlKey := false; altKey := true; shiftKey := false; key := "4" |}.

(** The dialog opened over an empty store, with Alt+4 recorded into
    [switch-en]. *)
Definition recorded_alt_4 : World :=
  run asciiToUpperCase mainProcess
    [DOMContentLoaded; Click "switch-en"; KeyDown alt_4] (init None).

(** The dialog opened over an empty store, with [toggle-bar] activated. *)
Definition capturing_toggle_bar : World :=
  run asciiToUpperCase mainProcess
    [DOMContentLoaded; Click "toggle-bar"] (init None).

(** A persisted blob whose hotkeys section binds one known identifier and
    one key that is no identifier. *)
Definition partial_blob : Blob :=
  {[ "hotkeys" := JObj {[ "switch-en" := JStr "Alt+4";
                          "volume" := JStr "9" ]};
     "muteAudio" := JBool true ]}.

(** ** Main processes that fail *)

(** A main process that rejects every call. *)
Definition offlineGateway : Handler :=
  fun channel arg blob => (Rejected "offline", blob).

(** A main process that answers reads and rejects everything else. *)
Definition readOnlyGateway : Handler :=
  fun channel arg blob =>
    if String.eqb channel "get-settings" then (Resolved blob, blob)
    else (Rejected "read-only", blob).

(** A table of bindings other than the defaults, and a blob holding it. *)
Definition custom_hotkeys : gmap string string :=
  list_to_map
    [("push-to-talk", "Ctrl+Space");
     ("toggle-hands-free", "Ctrl+Shift+H");
     ("toggle-bar", "F5");
     ("switch-en", "Alt+4");
     ("switch-pt", "Alt+5");
     ("switch-es", "Alt+6")].

Definition complete_blob : Blob :=
  {[ "hotkeys" := JObj (JStr <$> custom_hotkeys);
     "muteAudio" := JBool true ]}.

(** ** Listeners registered through the bridge *)

(** A function of the page, by identity. *)
Definition Callback : Type := nat.

(** What [ipcRenderer] holds as a listener: a function of the page itself,
    or the arrow function [(event, ...args) => callback(...args)] that a
    call of [on] creates (the [n]-th one created so far) around a function
    of the page. *)
Inductive Listener :=
  | Page (f : Callback)
  | Forward (n : nat) (f : Callback).

#[global] Instance Listener_eq_dec : EqDecision Listener.
Proof. solve_decision. Defined.

(** The listeners of [ipcRenderer], oldest first, and the number of arrow
    functions created by [on] so far. *)
Record Emitter := {
  listeners : list (string * Listener);
  arrows : nat
}.

Definition empty_emitter : Emitter := {| listeners := []; arrows := 0 |}.

(** The channels that [on] and [off] let through. *)
Definition validChannels : list string := ["dictation-status"; "mic-level"].

Fixpoint remove_first {A} `{EqDecision A} (x : A) (l : list A) : list A :=
  match l with
  | [] => []
  | y :: l' => if decide (x = y) then l' else y :: remove_first x l'
  end.

(** [ipcRenderer.removeListener(channel, listener)]: the most recently added
    instance of the listener on the channel goes, if there is one. *)
Definition removeListener (channel : string) (l : Listener)
    (ls : list (string * Listener)) : list (string * Listener) :=
  reverse (remove_first (channel, l) (reverse ls)).

(** [window.api.on(channel, callback)]. *)
Definition api_on (channel : string) (callback : Callback) (em : Emitter)
    : Emitter :=
  if bool_decide (channel ∈ validChannels)
  then {| listeners :=
            listeners em ++ [(channel, Forward (arrows em) callback)];
          arrows := S (arrows em) |}
  else em.

(** [window.api.off(channel, callback)]. *)
Definition api_off (channel : string) (callback : Callback) (em : Emitter)
    : Emitter :=
  if bool_decide (channel ∈ validChannels)
  then {| listeners := removeListener channel (Page callback) (listeners em);
          arrows := arrows em |}
  else em.

(** The functions of the page that run, in order, when the main process
    sends a message on a channel. *)
Definition invoked (channel : string) (em : Emitter) : list Callback :=
  omap (fun '(c, l) =>
          if decide (c = channel)
          then Some (match l with Page f => f | Forward _ f => f end)
          else None)
       (listeners em).

(** Calls of the page on the two methods. *)
Inductive BridgeCall :=
  | On (channel : string) (callback : Callback)
  | Off (channel : string) (callback : Callback).

Definition bridge_call (c : BridgeCall) (em : Emitter) : Emitter :=
  match c with
  | On channel callback => api_on channel callback em
  | Off channel callback => api_off channel callback em
  end.

Definition bridge_calls (cs : list BridgeCall) (em : Emitter) : Emitter :=
  foldl (fun em c => bridge_call c em) em cs.

(** The callbacks that the calls of [on] in a list passed for a channel. *)
Definition subscribed (channel : string) (cs : list BridgeCall)
    : list Callback :=
  omap (fun c =>
          match c with
          | On channel' f => if decide (channel' = channel) then Some f else None
          | Off _ _ => None
          end) cs.

(** ** Loading the settings into the main window *)

(** The options of the selects [output-language] and
    [recognition-service] in the markup of the main window. *)
Definition languageOptions : list string := ["en-US"; "pt-BR"; "es-ES"].
Definition serviceOptions : list string := ["whisper"; "azure"; "google"].

(** Assigning to the [value] of a select: the option of that value gets
    selected; when there is none, no option is selected and the value reads
    as the empty string. *)
Definition select_value (options : list string) (v : string) : string :=
  if bool_decide (v ∈ options) then v else "".

(** [document.querySelectorAll('.service-settings')], by id. *)
Definition serviceSettings : list string :=
  ["whisper-settings"; "azure-settings"; "google-settings"].

(** The listener of [change] on [recognition-service], on the
    [style.display] of the blocks. *)
Definition show_service (service : string) (panels : gmap string string)
    : gmap string string :=
  foldl (fun p id =>
           <[id := if String.eqb id (service ++ "-settings")
                   then "block" else "none"]> p)
        panels serviceSettings.

(** The controls read by [saveSettings] and the display of the three
    service blocks. *)
Record SettingsUI := {
  form : MainForm;
  panels : gmap string string
}.

(** The main window as its markup has it. *)
Definition initial_settings_ui : SettingsUI :=
  {| form := {| interactionSounds := false; muteAudio := false;
                autoLearn := true; outputLanguage := "en-US";
                recognitionService := "whisper"; whisperKey := "";
                azureKey := ""; azureRegion := ""; googleCredentials := "" |};
     panels := {[ "whisper-settings" := ""; "azure-settings" := "none";
                  "google-settings" := "none" ]} |}.

(** [settings[k]]. *)
Definition prop (b : Blob) (k : string) : JsVal := default JUndefined (b !! k).

(** [v === false]. *)
Definition strictly_false (v : JsVal) : bool :=
  match v with
  | JBool false => true
  | _ => false
  end.

(** [if (v) input.value = v], on a password or text input. *)
Definition assign_if_truthy (v : JsVal) (old : string) : string :=
  if truthy v then strip_newlines (to_value_string v) else old.

(** The body of [if (settings) { ... }] in [loadSettings]. *)
Definition apply_settings (b : Blob) (ui : SettingsUI) : SettingsUI :=
  let f :=
    {| interactionSounds :=
         truthy (js_or (prop b "interactionSounds") (JBool false));
       muteAudio := truthy (js_or (prop b "muteAudio") (JBool false));
       autoLearn := negb (strictly_false (prop b "autoLearn"));
       outputLanguage :=
         select_value languageOptions
           (to_value_string (js_or (prop b "outputLanguage") (JStr "en-US")));
       recognitionService :=
         select_value serviceOptions
           (to_value_string
              (js_or (prop b "recognitionService") (JStr "whisper")));
       whisperKey :=
         assign_if_truthy (prop b "whisperKey") (whisperKey (form ui));
       azureKey := assign_if_truthy (prop b "azureKey") (azureKey (form ui));
       azureRegion :=
         assign_if_truthy (prop b "azureRegion") (azureRegion (form ui));
       googleCredentials :=
         assign_if_truthy (prop b "googleCredentials")
           (googleCredentials (form ui)) |} in
  {| form := f; panels := show_service (recognitionService f) (panels ui) |}.

Definition loadSettings (gw : Handler) (ui : SettingsUI) (w : World)
    : SettingsUI * World :=
  match (settings ← window_api gw "getSettings" None;
         mret (match settings with
               | Some b => apply_settings b ui
               | None => ui
               end)) w with
  | (Ok ui', w') => (ui', w')
  | (Throw e, w') => (ui, console_error "Error loading settings:" e w')
  end.

(** A state of the controls of the main window other than the initial one. *)
Definition sample_form : MainForm :=
  {| interactionSounds := true; muteAudio := false; autoLearn := false;
     outputLanguage := "pt-BR"; recognitionService := "azure";
     whisperKey := ""; azureKey := "k-123"; azureRegion := "westeurope";
     googleCredentials := "" |}.

(** The keys of the object literal of [saveSettings]. *)
Definition settingsKeys : list string :=
  ["interactionSounds"; "muteAudio"; "autoLearn"; "outputLanguage";
   "recognitionService"; "whisperKey"; "azureKey"; "azureRegion";
   "googleCredentials"].

(** ** Navigation and tabs of the main window *)

(** The [data-page] of the items of the side bar and the [data-tab] of the
    tabs, each in document order, and the ids of the tab contents. *)
Definition navItems : list string :=
  ["home"; "dictionary"; "history"; "settings"].
Definition tabs : list string := ["general"; "plan"; "account"].
Definition tabContents : list string :=
  ["general-tab"; "plan-tab"; "account-tab"].

(** Whether each item and each tab holds the class ['active'], and the
    [style.display] of each tab content. *)
Record Chrome := {
  navActive : gmap string bool;
  tabActive : gmap string bool;
  contentDisplay : gmap string string
}.

Definition initial_chrome : Chrome :=
  {| navActive := {[ "home" := false; "dictionary" := false;
                     "history" := false; "settings" := true ]};
     tabActive := {[ "general" := true; "plan" := false;
                     "account" := false ]};
     contentDisplay := {[ "general-tab" := ""; "plan-tab" := "none";
                          "account-tab" := "none" ]} |}.

(** [items.forEach(i => i.classList.remove('active'));
     item.classList.add('active')]. *)
Definition activate_only (items : list string) (item : string)
    (m : gmap string bool) : gmap string bool :=
  <[item := true]> (foldl (fun m i => <[i := false]> m) m items).

(** The click listener of a navigation item. *)
Definition click_nav (page : string) (c : Chrome) : Chrome :=
  {| navActive := activate_only navItems page (navActive c);
     tabActive := tabActive c;
     contentDisplay := contentDisplay c |}.

(** The click listener of a tab. *)
Definition click_tab (tabName : string) (c : Chrome) : Chrome :=
  {| navActive := navActive c;
     tabActive := activate_only tabs tabName (tabActive c);
     contentDisplay :=
       foldl (fun m id =>
                <[id := if String.eqb id (tabName ++ "-tab")
                        then "block" else "none"]> m)
             (contentDisplay c) tabContents |}.

Inductive ChromeEvent :=
  | ClickNav (page : string)
  | ClickTab (tabName : string).

(** Only the items and the tabs of the markup have a listener. *)
Definition chrome_handle (ev : ChromeEvent) (c : Chrome) : Chrome :=
  match ev with
  | ClickNav page =>
      if bool_decide (page ∈ navItems) then click_nav page c else c
  | ClickTab tabName =>
      if bool_decide (tabName ∈ tabs) then click_tab tabName c else c
  end.

Definition chrome_run (evs : list ChromeEvent) (c : Chrome) : Chrome :=
  foldl (fun c ev => chrome_handle ev c) c evs.

(** One item active, one tab active, and the content on display is that of
    the active tab. *)
Definition chrome_inv (c : Chrome) : Prop :=
  (∃ page, page ∈ navItems ∧
     ∀ p, p ∈ navItems → navActive c !! p = Some (bool_decide (p = page))) ∧
  (∃ tabName, tabName ∈ tabs ∧
     (∀ t, t ∈ tabs → tabActive c !! t = Some (bool_decide (t = tabName))) ∧
     (∀ id, id ∈ tabContents →
        ∃ d, contentDisplay c !! id = Some d ∧
             (d ≠ "none" ↔ id = tabName ++ "-tab"))).

(** ** The microphone picker of the main window *)

(** The options of the select [mic-input] (value and text), its
    [selectedIndex], and the text of the status line. *)
Record MicPicker := {
  micOptions : list (string * string);
  micIndex : nat;
  micStatus : string
}.

Definition mic_placeholder : string * string := ("", "Select a microphone...").

Definition initial_mic_picker : MicPicker :=
  {| micOptions := [mic_placeholder]; micIndex := 0;
     micStatus := "Mic in use: None" |}.

(** [micInput.value]. *)
Definition mic_value (p : MicPicker) : string :=
  match micOptions p !! micIndex p with
  | Some (v, _) => v
  | None => ""
  end.

(** [loadMicrophones], given the outcome of the call on the channel
    ['get-microphones'] (a list, or [None] for [undefined]).
    Assigning [innerHTML] leaves the single placeholder option, selected;
    appending options does not move the selection. *)
Definition loadMicrophones (reply : Reply (option (list Mic)))
    (p : MicPicker) (w : World) : MicPicker * World :=
  match api_method "getMicrophones" with
  | Some (Invoke channel) =>
      let w' := with_host (store w) ((channel, None) :: ipc_log w) w in
      match reply with
      | Resolved (Some mics) =>
          ({| micOptions :=
                mic_placeholder :: map (fun m => (mic_id m, mic_name m)) mics;
              micIndex := 0;
              micStatus := micStatus p |}, w')
      | Resolved None =>
          ({| micOptions := [mic_placeholder]; micIndex := 0;
              micStatus := micStatus p |},
           console_error "Error loading microphones:"
             "TypeError: Cannot read properties of undefined (reading 'forEach')" w')
      | Rejected e => (p, console_error "Error loading microphones:" e w')
      end
  | _ =>
      (p, console_error "Error loading microphones:"
            "TypeError: window.api.getMicrophones is not a function" w)
  end.

(** ASCII whitespace: tab, line feed, form feed, carriage return, space. *)
Definition is_ascii_whitespace (c : Ascii.ascii) : bool :=
  bool_decide (Ascii.nat_of_ascii c ∈ [9; 10; 12; 13; 32]).

(** Strip and collapse ASCII whitespace: leading and trailing runs go, every
    other run becomes one space.  [seen]: a character other than whitespace
    was passed; [gap]: whitespace was passed since. *)
Fixpoint strip_and_collapse (seen gap : bool) (s : string) : string :=
  match s with
  | EmptyString => EmptyString
  | String c rest =>
      if is_ascii_whitespace c then strip_and_collapse seen seen rest
      else
        let tail := String c (strip_and_collapse true false rest) in
        if gap then " " ++ tail else tail
  end.

(** [option.text] of an option whose text content is [text]. *)
Definition option_text (text : string) : string :=
  strip_and_collapse false false text.

(** The user picks the option of index [i], and the [change] listener of
    [mic-input] runs. *)
Definition pick_mic (gw : Handler) (f : MainForm) (i : nat)
    (p : MicPicker) (w : World) : MicPicker * World :=
  match micOptions p !! i with
  | None => (p, w)
  | Some (deviceId, text) =>
      if negb (String.eqb deviceId "")
      then ({| micOptions := micOptions p; micIndex := i;
               micStatus := "Mic in use: " ++ option_text text |},
            saveSettings gw f w)
      else ({| micOptions := micOptions p; micIndex := i;
               micStatus := micStatus p |}, w)
  end.

(** ** The installer build script *)

(** The external programs the script starts. *)
Inductive Command := CleanKeys | PyInstaller | Makensis | RestoreKeys.

#[global] Instance Command_eq_dec : EqDecision Command.
Proof. solve_decision. Defined.

(** The lines the script prints. *)
Inductive Line :=
  | Banner | Step1 | ErrClean | Step2 | ErrBuild | Step3 | ErrInstaller
  | Step4 | Done | Where.

#[global] Instance Line_eq_dec : EqDecision Line.
Proof. solve_decision. Defined.

(** The text of each line, given the working directory. *)
Definition line_text (cwd : string) (l : Line) : string :=
  match l with
  | Banner => "===== Criando instalador do DogeDictate ====="
  | Step1 => "1. Limpando chaves de API..."
  | ErrClean => "Erro ao limpar chaves de API!"
  | Step2 => "2. Criando executável com PyInstaller..."
  | ErrBuild => "Erro ao criar executável!"
  | Step3 => "3. Criando instalador com NSIS..."
  | ErrInstaller => "Erro ao criar instalador!"
  | Step4 => "4. Restaurando configuração original..."
  | Done => "===== Instalador criado com sucesso! ====="
  | Where =>
      "O instalador está disponível em: " ++ cwd
        ++ "\DogeDictate-1.0.0-Setup.exe"
  end.

Definition command_text (c : Command) : string :=
  match c with
  | CleanKeys => "python clean_api_keys.py"
  | PyInstaller => "python -m PyInstaller DogeDictate.spec"
  | Makensis => "C:\Program Files (x86)\NSIS\makensis.exe installer.nsi"
  | RestoreKeys => "python clean_api_keys.py --restore"
  end.

Inductive Step :=
  | Say (l : Line)
  | Run (c : Command).

#[global] Instance Step_eq_dec : EqDecision Step.
Proof. solve_decision. Defined.

(** What a run of the script did, in order, whether it left through
    [exit /b 1], and the exit code of the script. *)
Record BuildRun := {
  steps : list Step;
  failed : bool;
  exit_code : Z
}.

(** The script, given the [ERRORLEVEL] that each program ends with.  A run
    that reaches the last line ends with the [ERRORLEVEL] of the last
    program it started ([echo] leaves it as it is). *)
Definition build (errorlevel : Command → Z) : BuildRun :=
  let t0 := [Say Banner; Say Step1; Run CleanKeys] in
  if negb (Z.eqb (errorlevel CleanKeys) 0)
  then {| steps := (t0 ++ [Say ErrClean])%list; failed := true;
          exit_code := 1 |}
  else
    let t1 := (t0 ++ [Say Step2; Run PyInstaller])%list in
    if negb (Z.eqb (errorlevel PyInstaller) 0)
    then {| steps := (t1 ++ [Say ErrBuild; Run RestoreKeys])%list;
            failed := true; exit_code := 1 |}
    else
      let t2 := (t1 ++ [Say Step3; Run Makensis])%list in
      if negb (Z.eqb (errorlevel Makensis) 0)
      then {| steps := (t2 ++ [Say ErrInstaller; Run RestoreKeys])%list;
              failed := true; exit_code := 1 |}
      else {| steps := (t2 ++ [Say Step4; Run RestoreKeys; Say Done;
                               Say Where])%list;
              failed := false; exit_code := errorlevel RestoreKeys |}.

(** The programs a run started, in order. *)
Definition started (r : BuildRun) : list Command :=
  omap (fun s => match s with Run c => Some c | Say _ => None end) (steps r).

(** Every program succeeds but the restore, which ends with 2. *)
Definition restore_fails (c : Command) : Z :=
  match c with
  | RestoreKeys => 2
  | _ => 0
  end.

(** A list of two microphones, loaded into the picker. *)
Definition sample_mics : list Mic :=
  [{| mic_id := "default"; mic_name := "Built-in" |};
   {| mic_id := "usb-1"; mic_name := "USB Mic" |}].

Definition sample_picker : MicPicker :=
  (loadMicrophones (Resolved (Some sample_mics)) initial_mic_picker
     (init None)).1.

(** ** What the user does in the main window *)

(** The checkboxes and the text fields that have a listener which saves.
    The credentials field is read-only and its Browse button does nothing,
    so the user has no way to edit it. *)
Inductive Checkbox := CInteractionSounds | CMuteAudio | CAutoLearn.
Inductive TextField := TWhisperKey | TAzureKey | TAzureRegion.

(** Toggling a checkbox or picking an option changes the control and fires
    [change]; typing changes a text field and fires nothing the script
    listens to; leaving a text field fires [blur]. *)
Inductive MainEvent :=
  | Toggle (c : Checkbox) (checked : bool)
  | PickLanguage (v : string)
  | PickService (v : string)
  | TypeText (t : TextField) (v : string)
  | BlurText (t : TextField).

Definition set_checkbox (c : Checkbox) (b : bool) (f : MainForm) : MainForm :=
  {| interactionSounds :=
       match c with CInteractionSounds => b | _ => interactionSounds f end;
     muteAudio := match c with CMuteAudio => b | _ => muteAudio f end;
     autoLearn := match c with CAutoLearn => b | _ => autoLearn f end;
     outputLanguage := outputLanguage f;
     recognitionService := recognitionService f;
     whisperKey := whisperKey f; azureKey := azureKey f;
     azureRegion := azureRegion f;
     googleCredentials := googleCredentials f |}.

Definition set_language (v : string) (f : MainForm) : MainForm :=
  {| interactionSounds := interactionSounds f; muteAudio := muteAudio f;
     autoLearn := autoLearn f; outputLanguage := v;
     recognitionService := recognitionService f;
     whisperKey := whisperKey f; azureKey := azureKey f;
     azureRegion := azureRegion f;
     googleCredentials := googleCredentials f |}.

Definition set_service (v : string) (f : MainForm) : MainForm :=
  {| interactionSounds := interactionSounds f; muteAudio := muteAudio f;
     autoLearn := autoLearn f; outputLanguage := outputLanguage f;
     recognitionService := v;
     whisperKey := whisperKey f; azureKey := azureKey f;
     azureRegion := azureRegion f;
     googleCredentials := googleCredentials f |}.

Definition set_text (t : TextField) (v : string) (f : MainForm) : MainForm :=
  {| interactionSounds := interactionSounds f; muteAudio := muteAudio f;
     autoLearn := autoLearn f; outputLanguage := outputLanguage f;
     recognitionService := recognitionService f;
     whisperKey := match t with TWhisperKey => v | _ => whisperKey f end;
     azureKey := match t with TAzureKey => v | _ => azureKey f end;
     azureRegion := match t with TAzureRegion => v | _ => azureRegion f end;
     googleCredentials := googleCredentials f |}.

(** The listeners of the main window: [change] of the three checkboxes and
    of [output-language] and [blur] of the three text fields run
    [saveSettings]; [change] of [recognition-service] shows the block of
    the service. *)
Definition main_handle (gw : Handler) (ev : MainEvent)
    (s : SettingsUI * World) : SettingsUI * World :=
  let '(ui, w) := s in
  match ev with
  | Toggle c b =>
      let f := set_checkbox c b (form ui) in
      ({| form := f; panels := panels ui |}, saveSettings gw f w)
  | PickLanguage v =>
      if bool_decide (v ∈ languageOptions)
      then let f := set_language v (form ui) in
           ({| form := f; panels := panels ui |}, saveSettings gw f w)
      else s
  | PickService v =>
      if bool_decide (v ∈ serviceOptions)
      then ({| form := set_service v (form ui);
               panels := show_service v (panels ui) |}, w)
      else s
  | TypeText t v =>
      ({| form := set_text t v (form ui); panels := panels ui |}, w)
  | BlurText t => (ui, saveSettings gw (form ui) w)
  end.

Definition main_run (gw : Handler) (evs : list MainEvent)
    (s : SettingsUI * World) : SettingsUI * World :=
  foldl (fun s ev => main_handle gw ev s) s evs.

(** The events whose listener saves. *)
Definition saves (ev : MainEvent) : bool :=
  match ev with
  | Toggle _ _ | BlurText _ => true
  | PickLanguage v => bool_decide (v ∈ languageOptions)
  | PickService _ | TypeText _ _ => false
  end.

(** * Properties *)

(** ** Elements and documents *)

Lemma lookup_set_value (d : Document) id v j :
  set_value id v d !! j =
    if decide (id = j)
    then (fun el => {| value := v; recording := recording el |}) <$> d !! j
    else d !! j.
Proof.
  unfold set_value. rewrite lookup_alter.
  case_decide; [by subst|done].
Qed.

Lemma lookup_set_recording (d : Document) id b j :
  set_recording id b d !! j =
    if decide (id = j)
    then (fun el => {| value := value el; recording := b |}) <$> d !! j
    else d !! j.
Proof.
  unfold set_recording. rewrite lookup_alter.
  case_decide; [by subst|done].
Qed.

Lemma field_set_value (d : Document) id v j :
  field (set_value id v d) j =
    if decide (id = j)
    then match d !! j with Some _ => v | None => "" end
    else field d j.
Proof.
  unfold field. rewrite lookup_set_value.
  case_decide; [|done]. by destruct (d !! j).
Qed.

Lemma field_set_recording (d : Document) id b j :
  field (set_recording id b d) j = field d j.
Proof.
  unfold field. rewrite lookup_set_recording.
  case_decide; [|done]. by destruct (d !! j).
Qed.

Lemma marked_set_value (d : Document) id v j :
  marked (set_value id v d) j = marked d j.
Proof.
  unfold marked. rewrite lookup_set_value.
  case_decide; [|done]. by destruct (d !! j).
Qed.

Lemma marked_set_recording (d : Document) id b j :
  marked (set_recording id b d) j =
    if decide (id = j)
    then match d !! j with Some _ => b | None => false end
    else marked d j.
Proof.
  unfold marked. rewrite lookup_set_recording.
  case_decide; [|done]. by destruct (d !! j).
Qed.

Lemma has_inputs_set_value (d : Document) id v :
  has_inputs d → has_inputs (set_value id v d).
Proof.
  intros H j Hj. rewrite lookup_set_value.
  case_decide; [|by apply H].
  destruct (H j Hj) as [el ->]. by eexists.
Qed.

Lemma has_inputs_set_recording (d : Document) id b :
  has_inputs d → has_inputs (set_recording id b d).
Proof.
  intros H j Hj. rewrite lookup_set_recording.
  case_decide; [|by apply H].
  destruct (H j Hj) as [el ->]. by eexists.
Qed.

Lemma hotkeyInputs_NoDup : NoDup hotkeyInputs.
Proof. apply (bool_decide_unpack _). by vm_compute. Qed.

Lemma has_inputs_initial : has_inputs initial_doc.
Proof.
  intros id Hid.
  assert (Forall (fun i => is_Some (initial_doc !! i)) hotkeyInputs) as HF.
  { unfold hotkeyInputs. repeat constructor; by eexists. }
  by eapply Forall_forall in HF.
Qed.

Lemma default_of_input id :
  id ∈ hotkeyInputs → ∃ s, defaultHotkeys !! id = Some s ∧ s ≠ "".
Proof.
  intros Hid.
  assert (Forall (fun i => ∃ s, defaultHotkeys !! i = Some s ∧ s ≠ "")
            hotkeyInputs) as HF.
  { unfold hotkeyInputs. repeat constructor; by eexists. }
  by eapply Forall_forall in HF.
Qed.

(** Assigning a value to each input of a list of distinct ids. *)
Lemma foldl_set_value_lookup (f : string → string) ids (d : Document) j :
  foldl (fun d id => set_value id (f id) d) d ids !! j =
    if decide (j ∈ ids)
    then (fun el => {| value := f j; recording := recording el |}) <$> d !! j
    else d !! j.
Proof.
  revert d. induction ids as [|i ids IH]; intros d; cbn [foldl].
  { case_decide; [set_solver|done]. }
  rewrite IH, lookup_set_value.
  destruct (decide (i = j)) as [->|Hne].
  - rewrite (decide_True (P := j ∈ j :: ids)) by (apply elem_of_cons; by left).
    case_decide; by destruct (d !! j).
  - destruct (decide (j ∈ ids)) as [Hin|Hnin].
    + by rewrite decide_True by (apply elem_of_cons; by right).
    + rewrite decide_False; [done|].
      intros [?|?]%elem_of_cons; congruence.
Qed.

(** Closed instances of [has_inputs] are settled by looking the six ids up. *)
Ltac solve_has_inputs :=
  let id := fresh "id" in
  let Hid := fresh "Hid" in
  let HF := fresh "HF" in
  intros id Hid;
  match goal with
  | |- is_Some (?d !! _) =>
      assert (Forall (fun i => is_Some (d !! i)) hotkeyInputs) as HF
        by (unfold hotkeyInputs; repeat constructor; vm_compute; eauto);
      exact (proj1 (Forall_forall _ _) HF id Hid)
  end.

(** ** Reset *)

Lemma field_resetHotkeys (w : World) j :
  has_inputs (doc w) → j ∈ hotkeyInputs →
  field (doc (resetHotkeys w)) j = to_value_string (default_of j).
Proof.
  intros Hin Hj. unfold resetHotkeys, field. cbn [doc with_doc].
  rewrite (foldl_set_value_lookup (fun id => to_value_string (default_of id))).
  rewrite decide_True by done.
  by destruct (Hin j Hj) as [el ->].
Qed.

Lemma resetHotkeys_idemp (w : World) :
  resetHotkeys (resetHotkeys w) = resetHotkeys w.
Proof.
  unfold resetHotkeys, with_doc. cbn [doc]. f_equal.
  apply map_eq. intros j.
  rewrite !(foldl_set_value_lookup (fun id => to_value_string (default_of id))).
  case_decide; [|done]. by destruct (doc w !! j).
Qed.

(** C5. Resetting gives each of the six fields its value of the default
    table, whatever the fields held before, and resetting a second time
    changes nothing. *)
Theorem resetHotkeys_defaults_idempotent (w : World) :
  has_inputs (doc w) →
  map (field (doc (resetHotkeys w))) hotkeyInputs =
    ["Alt+Space"; "Alt+H"; "Alt+B"; "Alt+1"; "Alt+2"; "Alt+3"] ∧
  (∀ id, id ∈ hotkeyInputs →
         defaultHotkeys !! id = Some (field (doc (resetHotkeys w)) id)) ∧
  resetHotkeys (resetHotkeys w) = resetHotkeys w.
Proof.
  intros Hin. split; [|split].
  - unfold hotkeyInputs. cbn [map].
    rewrite !field_resetHotkeys by (done || (unfold hotkeyInputs; set_solver)).
    reflexivity.
  - intros id Hid. rewrite field_resetHotkeys by done.
    destruct (default_of_input id Hid) as (s & Hs & _).
    unfold default_of. by rewrite Hs.
  - apply resetHotkeys_idemp.
Qed.

(** ** Leaving a capturing field *)

Lemma stopRecording_session (w : World) :
  isRecording (stopRecording w) = false ∧ currentInput (stopRecording w) = None.
Proof. done. Qed.

Lemma field_stopRecording (w : World) f j :
  currentInput w = Some f →
  field (doc (stopRecording w)) j =
    if decide (f = j)
    then (if String.eqb (field (doc w) f) "Recording..."
          then match doc w !! f with
               | Some _ => to_value_string (default_of f)
               | None => ""
               end
          else field (doc w) f)
    else field (doc w) j.
Proof.
  intros Hc. unfold stopRecording. rewrite Hc. simpl.
  rewrite field_set_recording.
  destruct (String.eqb (field (doc w) f) "Recording...").
  - rewrite field_set_value. by case_decide; subst.
  - by case_decide; subst.
Qed.

(** C4. When the capturing field loses focus, a field still showing the
    placeholder gets the default of its identifier, a field showing anything
    else keeps what it shows, no other field changes, and the session is
    idle afterwards. *)
Theorem blur_abandons_capturing_field
    (toUpperCase : string → string) (gw : Handler) (w : World) (f g : string) :
  has_inputs (doc w) → f ∈ hotkeyInputs → g ∈ hotkeyInputs →
  isRecording w = true → currentInput w = Some f →
  let w' := handle toUpperCase gw (Blur g) w in
  session w' = None ∧ isRecording w' = false ∧ currentInput w' = None ∧
  (field (doc w) f = "Recording..." →
     defaultHotkeys !! f = Some (field (doc w') f)) ∧
  (field (doc w) f ≠ "Recording..." → field (doc w') f = field (doc w) f) ∧
  (∀ j, j ≠ f → field (doc w') j = field (doc w) j).
Proof.
  intros Hin Hf Hg Hrec Hcur. cbn [handle].
  rewrite bool_decide_eq_true_2 by done. cbv zeta.
  repeat split.
  - intros Hp. rewrite (field_stopRecording w f f Hcur).
    rewrite decide_True by done.
    rewrite Hp, String.eqb_refl.
    destruct (Hin f Hf) as [el ->].
    destruct (default_of_input f Hf) as (s & Hs & _).
    unfold default_of. by rewrite Hs.
  - intros Hp. rewrite (field_stopRecording w f f Hcur).
    rewrite decide_True by done.
    by apply String.eqb_neq in Hp as ->.
  - intros j Hj. rewrite (field_stopRecording w f j Hcur).
    by rewrite decide_False.
Qed.

(** ** Sequencing *)

Lemma M_bind_unfold {A B} (m : M A) (k : A → M B) (w : World) :
  (m ≫= k) w =
    match m w with
    | (Ok a, w') => k a w'
    | (Throw e, w') => (Throw e, w')
    end.
Proof. reflexivity. Qed.

(** ** Calls over the bridge *)

Lemma window_api_getSettings (gw : Handler) arg (w : World) :
  window_api gw "getSettings" arg w =
    let '(reply, blob) := gw "get-settings" arg (store w) in
    let w' := with_host blob (("get-settings", arg) :: ipc_log w) w in
    match reply with
    | Resolved r => (Ok r, w')
    | Rejected e => (Throw e, w')
    end.
Proof. reflexivity. Qed.

Lemma window_api_saveSettings (gw : Handler) arg (w : World) :
  window_api gw "saveSettings" arg w =
    let '(reply, blob) := gw "save-settings" arg (store w) in
    let w' := with_host blob (("save-settings", arg) :: ipc_log w) w in
    match reply with
    | Resolved r => (Ok r, w')
    | Rejected e => (Throw e, w')
    end.
Proof. reflexivity. Qed.

(** The bridge of [preload.js] has no method [closeHotkeyDialog]: the call
    is a TypeError and nothing is sent to the host. *)
Lemma window_api_closeHotkeyDialog (gw : Handler) arg (w : World) :
  window_api gw "closeHotkeyDialog" arg w =
    (Throw "TypeError: window.api.closeHotkeyDialog is not a function", w).
Proof. reflexivity. Qed.

(** ** The session invariant *)

Lemma session_inv_frame (w w' : World) :
  session_inv w →
  (∀ j, recording <$> doc w' !! j = recording <$> doc w !! j) →
  isRecording w' = isRecording w →
  currentInput w' = currentInput w →
  session_inv w'.
Proof.
  intros (Hin & Hrc & Hcur & Hmk) Hd Hr Hc.
  assert (∀ j, marked (doc w') j = marked (doc w) j) as Hm.
  { intros j. unfold marked. specialize (Hd j).
    destruct (doc w' !! j), (doc w !! j); simplify_eq/=; done. }
  split; [|split; [|split]].
  - intros j Hj. destruct (Hin j Hj) as [el Hel].
    specialize (Hd j). rewrite Hel in Hd.
    destruct (doc w' !! j); [by eexists|done].
  - by rewrite Hr, Hc.
  - intros j. rewrite Hc. apply Hcur.
  - intros j. rewrite Hm, Hc. apply Hmk.
Qed.

Lemma recording_set_value (d : Document) id v j :
  recording <$> set_value id v d !! j = recording <$> d !! j.
Proof.
  rewrite lookup_set_value. case_decide; [|done]. by destruct (d !! j).
Qed.

Lemma recording_load_entries (l : list (string * JsVal)) (d : Document) j :
  recording <$> foldl load_entry d l !! j = recording <$> d !! j.
Proof.
  revert d. induction l as [|[i v] l IH]; intros d; [done|].
  cbn [foldl]. rewrite IH. unfold load_entry.
  destruct (d !! i); [|done]. apply recording_set_value.
Qed.

Lemma recording_reset_entries (ids : list string) (d : Document) j :
  recording <$>
    foldl (fun d id => set_value id (to_value_string (default_of id)) d) d ids
      !! j = recording <$> d !! j.
Proof.
  revert d. induction ids as [|i ids IH]; intros d; [done|].
  cbn [foldl]. rewrite IH. apply recording_set_value.
Qed.

Lemma session_inv_init (blob : option Blob) : session_inv (init blob).
Proof.
  split; [apply has_inputs_initial|]. split; [|split].
  - simpl. split; [done|]. by intros [? ?].
  - done.
  - intros id. simpl. split; [|done].
    unfold marked. intros Hm.
    destruct (initial_doc !! id) as [el|] eqn:Hel; [|done].
    apply elem_of_list_to_map_2, list_elem_of_fmap in Hel.
    destruct Hel as (i & Heq & _). by simplify_eq.
Qed.

Lemma session_inv_stopRecording (w : World) :
  session_inv w → session_inv (stopRecording w).
Proof.
  intros (Hin & Hrc & Hcur & Hmk).
  split; [|split; [|split]].
  - unfold stopRecording. cbn [doc with_session with_doc].
    destruct (currentInput w) as [id|]; [|done].
    apply has_inputs_set_recording.
    destruct (String.eqb _ _); [by apply has_inputs_set_value|done].
  - simpl. split; [done|]. by intros [? ?].
  - done.
  - intros j. cbn [currentInput stopRecording with_session].
    split; [|done]. intros Hm. exfalso. revert Hm.
    unfold stopRecording. cbn [doc with_session with_doc].
    destruct (currentInput w) as [id|] eqn:Hc.
    + rewrite marked_set_recording.
      case_decide as Hij.
      { destruct (_ !! j); done. }
      destruct (String.eqb _ _).
      * rewrite marked_set_value. intros Hm%Hmk. congruence.
      * intros Hm%Hmk. congruence.
    + by intros Hm%Hmk.
Qed.

Lemma session_inv_startRecording (w : World) (input : string) :
  input ∈ hotkeyInputs → session_inv w → session_inv (startRecording input w).
Proof.
  intros Hinput Hinv.
  assert (∃ w1, startRecording input w =
            with_session true (Some input)
              (with_doc (set_recording input true
                 (set_value input "Recording..." (doc w1))) w1) ∧
            session_inv w1 ∧ currentInput w1 = None)
    as (w1 & -> & (Hin & Hrc & Hcur & Hmk) & Hnone).
  { unfold startRecording. destruct (isRecording w) eqn:Hr.
    - exists (stopRecording w). split; [done|].
      split; [by apply session_inv_stopRecording|done].
    - exists w. split; [done|]. split; [done|].
      destruct Hinv as (_ & Hrc & _).
      destruct (currentInput w); [|done].
      destruct Hrc as [_ Hrc]. rewrite Hrc in Hr; [done|by eexists]. }
  split; [|split; [|split]].
  - cbn [doc with_session with_doc].
    by apply has_inputs_set_recording, has_inputs_set_value.
  - simpl. split; [by eexists|done].
  - simpl. by intros id [= <-].
  - intros j. cbn [doc currentInput with_session with_doc].
    rewrite marked_set_recording. case_decide as Hij.
    + subst j. destruct (has_inputs_set_value (doc w1) input "Recording..." Hin
                           input Hinput) as [el ->]. done.
    + rewrite marked_set_value. split.
      * intros Hm%Hmk. congruence.
      * intros [= ->]. done.
Qed.

Lemma session_inv_keydown (up : string → string) (e : KeyEvent) (w : World) :
  session_inv w → session_inv (keydown up e w).
Proof.
  intros Hinv. unfold keydown.
  destruct (isRecording w); [|done]. cbn [negb].
  assert (session_inv (with_prevented (S (prevented w)) w)) as Hinv'.
  { by apply (session_inv_frame w). }
  destruct (hotkeyString up e) as [s|]; [|done].
  cbn [currentInput with_prevented].
  destruct (currentInput w) as [id|] eqn:Hc; [|done].
  apply session_inv_stopRecording.
  apply (session_inv_frame w); [done| |done|done].
  intros j. cbn [doc with_doc with_prevented]. apply recording_set_value.
Qed.

Lemma session_inv_resetHotkeys (w : World) :
  session_inv w → session_inv (resetHotkeys w).
Proof.
  intros Hinv. apply (session_inv_frame w); [done| |done|done].
  intros j. unfold resetHotkeys. cbn [doc with_doc].
  apply recording_reset_entries.
Qed.

(** Loading touches the values of elements, the console and the host side;
    the session and the class lists stay as they are. *)
Lemma loadHotkeys_frame (gw : Handler) (w : World) :
  (∀ j, recording <$> doc (loadHotkeys gw w) !! j = recording <$> doc w !! j) ∧
  isRecording (loadHotkeys gw w) = isRecording w ∧
  currentInput (loadHotkeys gw w) = currentInput w ∧
  prevented (loadHotkeys gw w) = prevented w.
Proof.
  unfold loadHotkeys, try_catch, mbind, M_bind.
  rewrite window_api_getSettings.
  destruct (gw "get-settings" None (store w)) as [[r|err] blob]; [|done].
  cbv beta iota zeta.
  match goal with
  | |- context [object_entries ?v] =>
      destruct (object_entries v) as [entries|]; [|done]
  end.
  unfold update. cbn [doc with_doc with_host isRecording currentInput prevented].
  split; [|done]. intros j. apply recording_load_entries.
Qed.

(** Saving leaves the window itself as it is. *)
Lemma saveHotkeys_frame (gw : Handler) (w : World) :
  doc (saveHotkeys gw w) = doc w ∧
  isRecording (saveHotkeys gw w) = isRecording w ∧
  currentInput (saveHotkeys gw w) = currentInput w ∧
  prevented (saveHotkeys gw w) = prevented w.
Proof.
  unfold saveHotkeys, try_catch, mbind, M_bind, get_doc.
  rewrite window_api_getSettings.
  destruct (gw "get-settings" None (store w)) as [[r|err] blob]; [|done].
  cbv beta iota zeta. rewrite window_api_saveSettings.
  cbn [store with_host].
  destruct (gw "save-settings" _ blob) as [[r'|err] blob']; [|done].
  cbv beta iota zeta. by rewrite window_api_closeHotkeyDialog.
Qed.

Lemma session_inv_handle (up : string → string) (gw : Handler)
    (ev : Event) (w : World) :
  session_inv w → session_inv (handle up gw ev w).
Proof.
  intros Hinv. destruct ev as [id|id|e|c| | |f]; cbn [handle].
  - case_bool_decide; [by apply session_inv_startRecording|done].
  - case_bool_decide; [by apply session_inv_stopRecording|done].
  - by apply session_inv_keydown.
  - destruct c; [by apply session_inv_resetHotkeys|done].
  - destruct (saveHotkeys_frame gw w) as (Hd & Hr & Hc & _).
    apply (session_inv_frame w); [done| |done|done].
    intros j. by rewrite Hd.
  - destruct (loadHotkeys_frame gw w) as (Hd & Hr & Hc & _).
    by apply (session_inv_frame w).
  - by apply (session_inv_frame w).
Qed.

Lemma session_inv_run (up : string → string) (gw : Handler)
    (evs : list Event) (w : World) :
  session_inv w → session_inv (run up gw evs w).
Proof.
  revert w. induction evs as [|ev evs IH]; intros w Hinv; [done|].
  apply IH. by apply session_inv_handle.
Qed.

Lemma marked_iff_session (w : World) (i : string) :
  session_inv w → marked (doc w) i = true ↔ session w = Some i.
Proof.
  intros (_ & Hrc & _ & Hmk). rewrite Hmk. unfold session.
  destruct (isRecording w); [done|].
  destruct (currentInput w); [|done].
  destruct Hrc as [_ Hrc]. discriminate Hrc. by eexists.
Qed.

(** The exit rule keeps the elements of the document. *)
Lemma stopRecording_elements (w : World) j :
  is_Some (doc (stopRecording w) !! j) ↔ is_Some (doc w !! j).
Proof.
  unfold stopRecording. cbn [doc with_session with_doc].
  destruct (currentInput w) as [id|]; [|done].
  rewrite lookup_set_recording.
  destruct (String.eqb _ _).
  - rewrite lookup_set_value.
    repeat case_decide; by rewrite ?fmap_is_Some.
  - case_decide; by rewrite ?fmap_is_Some.
Qed.

(** Activating a field: the state before the field is entered is the state
    as it was when the session was idle, and the state the exit rule leaves
    when it was open. *)
Lemma startRecording_unfold (input : string) (w : World) :
  let w1 := if isRecording w then stopRecording w else w in
  startRecording input w =
    with_session true (Some input)
      (with_doc (set_recording input true
                   (set_value input "Recording..." (doc w1))) w1).
Proof. reflexivity. Qed.

Lemma startRecording_entered (input : string) (w : World) :
  is_Some (doc w !! input) →
  session (startRecording input w) = Some input ∧
  field (doc (startRecording input w)) input = "Recording..." ∧
  marked (doc (startRecording input w)) input = true.
Proof.
  intros Hel. rewrite startRecording_unfold. cbv zeta.
  set (w1 := if isRecording w then stopRecording w else w).
  assert (is_Some (doc w1 !! input)) as [el Hel1].
  { unfold w1. destruct (isRecording w); [|done].
    by apply stopRecording_elements. }
  split; [done|]. cbn [doc with_session with_doc]. split.
  - rewrite field_set_recording, field_set_value, decide_True by done.
    by rewrite Hel1.
  - rewrite marked_set_recording, decide_True by done.
    by rewrite lookup_set_value, decide_True, Hel1 by done.
Qed.

Lemma startRecording_other_field (input : string) (w : World) j :
  j ≠ input →
  field (doc (startRecording input w)) j =
    field (doc (if isRecording w then stopRecording w else w)) j.
Proof.
  intros Hj. rewrite startRecording_unfold. cbv zeta.
  cbn [doc with_session with_doc].
  rewrite field_set_recording, field_set_value.
  by rewrite decide_False by done.
Qed.

(** C3. In every state the dialog reaches, at most one field carries the
    capturing mark, and a field carries it exactly when the session is
    capturing that field.  A click on a field B makes B the capturing
    field: the session captures B, B shows the placeholder and B alone
    carries the mark.  When the session was capturing another field A, A
    is finalized under the exit rule first: A loses the mark, gets the
    default of its identifier if it still showed the placeholder and keeps
    what it showed otherwise; the fields outside the session and other
    than B keep what they showed.  The click does what closing the session
    under its exit rule and then clicking B from the idle state does.
    While the session is idle the key listener changes nothing. *)
Theorem recording_session_single_slot
    (toUpperCase : string → string) (gw : Handler)
    (blob : option Blob) (evs : list Event) :
  let w := run toUpperCase gw evs (init blob) in
  (∀ i j, marked (doc w) i = true → marked (doc w) j = true → i = j) ∧
  (∀ i, marked (doc w) i = true ↔ session w = Some i) ∧
  (∀ B, B ∈ hotkeyInputs →
     let w' := handle toUpperCase gw (Click B) w in
     session w' = Some B ∧
     field (doc w') B = "Recording..." ∧
     (∀ j, marked (doc w') j = true ↔ j = B) ∧
     (∀ A, session w = Some A → A ≠ B →
        marked (doc w') A = false ∧
        (field (doc w) A = "Recording..." →
           defaultHotkeys !! A = Some (field (doc w') A)) ∧
        (field (doc w) A ≠ "Recording..." →
           field (doc w') A = field (doc w) A)) ∧
     (∀ j, j ≠ B → session w ≠ Some j →
        field (doc w') j = field (doc w) j) ∧
     session (stopRecording w) = None ∧
     (∀ j, marked (doc (stopRecording w)) j = false) ∧
     w' = handle toUpperCase gw (Click B) (stopRecording w)) ∧
  (isRecording w = false →
     ∀ e, handle toUpperCase gw (KeyDown e) w = w).
Proof.
  intros w.
  assert (session_inv w) as Hinv
    by apply session_inv_run, session_inv_init.
  split; [|split; [|split]].
  - intros i j Hi%(marked_iff_session _ _ Hinv) Hj%(marked_iff_session _ _ Hinv).
    congruence.
  - intros i. by apply marked_iff_session.
  - intros B HB. cbv zeta. cbn [handle].
    rewrite bool_decide_eq_true_2 by done.
    pose proof (session_inv_stopRecording w Hinv) as Hstop.
    pose proof (session_inv_startRecording w B HB Hinv) as Hstart.
    destruct Hinv as (Hin & Hrc & Hcur & Hmk).
    destruct (startRecording_entered B w (Hin B HB)) as (Hs & Hf & _).
    split; [done|]. split; [done|].
    split; [|split; [|split; [|split; [done|split]]]].
    + intros j. rewrite (marked_iff_session _ _ Hstart), Hs.
      split; [by intros [= ->]|by intros ->].
    + intros A HA HAB.
      assert (isRecording w = true ∧ currentInput w = Some A) as [Hrec Hc].
      { unfold session in HA. by destruct (isRecording w). }
      split; [|split].
      * destruct (marked (doc (startRecording B w)) A) eqn:Hm; [|done].
        apply (marked_iff_session _ _ Hstart) in Hm. congruence.
      * intros Hp. rewrite startRecording_other_field, Hrec by done.
        rewrite (field_stopRecording w A A Hc), decide_True by done.
        rewrite Hp, String.eqb_refl.
        destruct (Hin A (Hcur A Hc)) as [el ->].
        destruct (default_of_input A (Hcur A Hc)) as (s & Hd & _).
        unfold default_of. by rewrite Hd.
      * intros Hp. rewrite startRecording_other_field, Hrec by done.
        rewrite (field_stopRecording w A A Hc), decide_True by done.
        by apply String.eqb_neq in Hp as ->.
    + intros j HjB Hj. rewrite startRecording_other_field by done.
      destruct (isRecording w) eqn:Hrec; [|done].
      destruct (proj1 Hrc eq_refl) as [A Hc].
      rewrite (field_stopRecording w A j Hc).
      rewrite decide_False; [done|].
      intros <-. apply Hj. unfold session. by rewrite Hrec.
    + intros j. destruct (marked (doc (stopRecording w)) j) eqn:Hm; [|done].
      by apply (marked_iff_session _ _ Hstop) in Hm.
    + rewrite (startRecording_unfold B (stopRecording w)).
      rewrite startRecording_unfold. cbv zeta.
      destruct (isRecording w) eqn:Hrec; [done|].
      assert (currentInput w = None) as Hc.
      { destruct (currentInput w) eqn:Hc; [|done].
        destruct Hrc as [_ Hrc]. discriminate Hrc. by eexists. }
      cbn [isRecording stopRecording with_session]. unfold stopRecording.
      by rewrite Hc.
  - intros Hrec e. cbn [handle]. unfold keydown. by rewrite Hrec.
Qed.

(** ** The chord built by the key listener *)

Lemma chord_event_flags (M M' : list Modifier) (K : string) :
  (∀ m, m ∈ M' ↔ m ∈ M) → chord_event M' K = chord_event M K.
Proof.
  intros HM. unfold chord_event. f_equal; apply bool_decide_ext, HM.
Qed.

(** C2. For a key that is not a modifier key, the listener builds the
    tokens of the held modifiers in the order Ctrl, Alt, Shift, whatever the
    order they were pressed in, followed by one more token: the key in upper
    case when it is a single character and the key as it is otherwise.  The
    string is these tokens joined by [+]. *)
Theorem hotkeyString_canonical
    (toUpperCase : string → string) (M : list Modifier) (K : string) :
  K ∉ modifier_keys →
  let primary := if decide (String.length K = 1) then toUpperCase K else K in
  let tokens :=
    ((modifier_token <$> filter (fun m => m ∈ M) [Ctrl; Alt; Shift])
       ++ [primary])%list in
  chord_keys toUpperCase (chord_event M K) = tokens ∧
  hotkeyString toUpperCase (chord_event M K) = Some (join "+" tokens) ∧
  (∀ M', M' ≡ₚ M →
     hotkeyString toUpperCase (chord_event M' K) = Some (join "+" tokens)).
Proof.
  intros HK primary tokens.
  assert (chord_keys toUpperCase (chord_event M K) = tokens) as Hkeys.
  { unfold chord_keys, tokens, primary, chord_event.
    cbn [ctrlKey altKey shiftKey key].
    rewrite (bool_decide_eq_false_2 (K ∈ _)) by exact HK.
    assert ((if Nat.eqb (String.length K) 1 then toUpperCase K else K) =
            (if decide (String.length K = 1) then toUpperCase K else K)) as ->.
    { case_decide as Hl; [by rewrite Hl|].
      by apply Nat.eqb_neq in Hl as ->. }
    rewrite !filter_cons, filter_nil.
    destruct (decide (Ctrl ∈ M)), (decide (Alt ∈ M)), (decide (Shift ∈ M));
      repeat case_bool_decide; done. }
  assert (hotkeyString toUpperCase (chord_event M K) = Some (join "+" tokens))
    as Hstr.
  { unfold hotkeyString. rewrite Hkeys. unfold tokens.
    rewrite length_app. cbn [length].
    by rewrite Nat.add_1_r. }
  split; [done|]. split; [done|].
  intros M' HM'. rewrite (chord_event_flags M M'); [done|].
  intros m. by rewrite HM'.
Qed.

(** X3. A modifier key pressed with no modifier flag set builds nothing,
    and the listener leaves the field and the session as they are. *)
Lemma keydown_modifier_without_flags
    (toUpperCase : string → string) (K : string) (w : World) :
  K ∈ modifier_keys →
  let e := {| ctrlKey := false; altKey := false; shiftKey := false; key := K |} in
  hotkeyString toUpperCase e = None ∧
  doc (keydown toUpperCase e w) = doc w ∧
  session (keydown toUpperCase e w) = session w.
Proof.
  intros HK e.
  assert (hotkeyString toUpperCase e = None) as Hn.
  { unfold hotkeyString, chord_keys, e. cbn [ctrlKey altKey shiftKey key].
    by rewrite (bool_decide_eq_true_2 (K ∈ _)) by exact HK. }
  split; [done|]. unfold keydown. rewrite Hn.
  by destruct (isRecording w).
Qed.

(** X12. A modifier key pressed with a modifier flag set builds the tokens
    of the set flags alone, in the order Ctrl, Alt, Shift, joined by [+]
    (no token for the key itself); the listener commits this string to the
    capturing field and closes the session. *)
Lemma keydown_modifier_with_flags
    (toUpperCase : string → string) (e : KeyEvent) (w : World) (f : string) :
  key e ∈ modifier_keys →
  ctrlKey e || altKey e || shiftKey e = true →
  isRecording w = true → currentInput w = Some f → is_Some (doc w !! f) →
  let s :=
    join "+" (modifier_token
                <$> filter (fun m => held e m = true) [Ctrl; Alt; Shift]) in
  hotkeyString toUpperCase e = Some s ∧
  field (doc (keydown toUpperCase e w)) f = s ∧
  session (keydown toUpperCase e w) = None.
Proof.
  intros HK Hflags Hrec Hcur [el Hel] s.
  assert (hotkeyString toUpperCase e = Some s ∧ s ≠ "Recording...")
    as (Hs & Hne).
  { unfold s, hotkeyString, chord_keys.
    rewrite (bool_decide_eq_true_2 (key e ∈ _)) by exact HK.
    rewrite !filter_cons, filter_nil. unfold held.
    destruct (ctrlKey e), (altKey e), (shiftKey e); try done;
      repeat case_decide; try done. }
  split; [done|].
  unfold keydown. rewrite Hrec, Hs. cbn [negb currentInput with_prevented].
  rewrite Hcur. split; [|done].
  rewrite (field_stopRecording _ f f) by done.
  rewrite decide_True by done.
  cbn [doc with_doc with_prevented].
  rewrite field_set_value, decide_True by done.
  rewrite Hel. by apply String.eqb_neq in Hne as ->.
Qed.


(** C1. The Control key pressed on its own, as the first key after the
    field [switch-en] was activated: the event carries the control flag, so
    the listener builds the string [Ctrl], commits it to the field and
    closes the session. *)
Theorem keydown_control_alone_commits
    (toUpperCase : string → string) (gw : Handler) :
  let e := {| ctrlKey := true; altKey := false; shiftKey := false;
              key := "Control" |} in
  let w := handle toUpperCase gw (Click "switch-en") (init None) in
  let w' := handle toUpperCase gw (KeyDown e) w in
  session w = Some "switch-en" ∧
  field (doc w) "switch-en" = "Recording..." ∧
  hotkeyString toUpperCase e = Some "Ctrl" ∧
  field (doc w') "switch-en" = "Ctrl" ∧
  session w' = None.
Proof. cbv zeta. repeat split; reflexivity. Qed.

(** ** Loading *)

(** A string without line feed or carriage return. *)
Lemma strip_newlines_idemp s : strip_newlines (strip_newlines s) = strip_newlines s.
Proof.
  induction s as [|c s IH]; [done|]. cbn [strip_newlines].
  destruct (is_newline c) eqn:Hc; [done|].
  cbn [strip_newlines]. by rewrite Hc, IH.
Qed.

(** What an input or a button keeps of a default binding is the binding. *)
Lemma value_assigned_default id s :
  id ∈ hotkeyInputs → defaultHotkeys !! id = Some s →
  value_assigned id (JStr s) = s.
Proof.
  intros Hid.
  assert (Forall (fun i => ∀ s, defaultHotkeys !! i = Some s →
                               value_assigned i (JStr s) = s)
            hotkeyInputs) as HF.
  { unfold hotkeyInputs.
    repeat constructor; intros s' Hs; vm_compute in Hs;
      injection Hs as <-; by vm_compute. }
  apply (proj1 (Forall_forall _ _) HF id Hid).
Qed.

(** On the six inputs, assigning a string keeps it up to its line breaks. *)
Lemma value_assigned_input id s :
  id ∈ hotkeyInputs → value_assigned id (JStr s) = strip_newlines s.
Proof. intros Hid. unfold value_assigned. by rewrite bool_decide_true. Qed.

Lemma foldl_load_entry_lookup (l : list (string * JsVal)) (d : Document) j :
  NoDup l.*1 →
  foldl load_entry d l !! j =
    match (list_to_map l : Blob) !! j with
    | Some v =>
        (fun el => {| value := value_assigned j v; recording := recording el |})
          <$> d !! j
    | None => d !! j
    end.
Proof.
  revert d. induction l as [|[i v] l IH]; intros d Hnd; [done|].
  apply NoDup_cons in Hnd as [Hi Hnd].
  cbn [foldl list_to_map foldr uncurry fst snd]. cbn [fmap list_fmap fst] in Hi.
  rewrite IH by done.
  destruct (decide (i = j)) as [->|Hne].
  - rewrite lookup_insert_eq.
    rewrite (not_elem_of_list_to_map_1 (M := gmap string) l j) by done.
    unfold load_entry. destruct (d !! j) eqn:Hd.
    + rewrite lookup_set_value, decide_True by done. by rewrite Hd.
    + by rewrite Hd.
  - rewrite lookup_insert_ne by done.
    assert (load_entry d (i, v) !! j = d !! j) as ->; [|done].
    unfold load_entry. destruct (d !! i); [|done].
    by rewrite lookup_set_value, decide_False.
Qed.

Lemma lookup_load_entries (hk : Blob) (d : Document) j :
  foldl load_entry d (map_to_list hk) !! j =
    match hk !! j with
    | Some v =>
        (fun el => {| value := value_assigned j v; recording := recording el |})
          <$> d !! j
    | None => d !! j
    end.
Proof.
  rewrite foldl_load_entry_lookup by apply NoDup_fst_map_to_list.
  by rewrite list_to_map_to_list.
Qed.

Lemma field_load_entries (hk : Blob) (d : Document) j :
  field (foldl load_entry d (map_to_list hk)) j =
    match hk !! j with
    | Some v => match d !! j with Some _ => value_assigned j v | None => "" end
    | None => field d j
    end.
Proof.
  unfold field. rewrite lookup_load_entries.
  destruct (hk !! j); [|done]. by destruct (d !! j).
Qed.

(** What [loadHotkeys] does once the bridge has answered. *)
Lemma loadHotkeys_resolved (gw : Handler) (w : World) r blob' :
  gw "get-settings" None (store w) = (Resolved r, blob') →
  ∀ hotkeys : Blob,
    js_or (default JUndefined (r ≫= (.!! "hotkeys")))
          (JObj (JStr <$> defaultHotkeys)) = JObj hotkeys →
    loadHotkeys gw w =
      with_doc (foldl load_entry (doc w) (map_to_list hotkeys))
        (with_host blob' (("get-settings", None) :: ipc_log w) w).
Proof.
  intros Hgw hotkeys Hhk.
  unfold loadHotkeys, try_catch. rewrite M_bind_unfold.
  rewrite window_api_getSettings, Hgw. cbv beta iota zeta.
  by rewrite Hhk.
Qed.

(** Loading over a blob that has a hotkeys object applies its entries. *)
Lemma loadHotkeys_object (gw : Handler) (w : World) r blob' (hk : Blob) :
  gw "get-settings" None (store w) = (Resolved r, blob') →
  r ≫= (.!! "hotkeys") = Some (JObj hk) →
  loadHotkeys gw w =
    with_doc (foldl load_entry (doc w) (map_to_list hk))
      (with_host blob' (("get-settings", None) :: ipc_log w) w).
Proof.
  intros Hgw Hhk. apply (loadHotkeys_resolved gw w r blob' Hgw).
  by rewrite Hhk.
Qed.

(** C6. The dialog opened over a persisted blob whose hotkeys section binds
    [switch-en] and a key that is no identifier: the field [switch-en]
    shows the persisted binding and the unknown key changes nothing, but
    the five other fields stay empty although each has a default; no error
    is logged.  The Save action that follows persists the default of each
    empty field, as saving, leaving a capture and resetting do for an
    identifier that has no value of its own. *)
Theorem loadHotkeys_partial_section :
  let w := loadHotkeys mainProcess (init (Some partial_blob)) in
  persisted_hotkey (Some partial_blob) "switch-en" = Some (JStr "Alt+4") ∧
  field (doc w) "switch-en" = "Alt+4" ∧
  (∀ id, id ∈ hotkeyInputs → id ≠ "switch-en" →
         persisted_hotkey (Some partial_blob) id = None ∧
         field (doc w) id = "" ∧
         ∃ s, defaultHotkeys !! id = Some s ∧ s ≠ "" ∧
              persisted_hotkey (store (saveHotkeys mainProcess w)) id
                = Some (JStr s)) ∧
  dom (doc w) = dom initial_doc ∧
  console w = [] ∧
  store w = Some partial_blob.
Proof.
  cbv zeta. split; [by vm_compute|]. split; [by vm_compute|].
  split; [|split; [|split; by vm_compute]].
  - intros id Hid Hne.
    assert (Forall (fun i =>
              i ≠ "switch-en" →
              persisted_hotkey (Some partial_blob) i = None ∧
              field (doc (loadHotkeys mainProcess (init (Some partial_blob))))
                    i = "" ∧
              ∃ s, defaultHotkeys !! i = Some s ∧ s ≠ "" ∧
                   persisted_hotkey
                     (store (saveHotkeys mainProcess
                        (loadHotkeys mainProcess (init (Some partial_blob)))))
                     i = Some (JStr s))
              hotkeyInputs) as HF.
    { unfold hotkeyInputs.
      repeat first [apply List.Forall_nil | apply List.Forall_cons];
        intros Hi; try done;
        (split; [by vm_compute|]; split; [by vm_compute|];
         eexists; split; [by vm_compute|]; split; [done|by vm_compute]). }
    by apply (proj1 (Forall_forall _ _) HF id Hid).
  - apply set_eq. intros j.
    rewrite !elem_of_dom.
    rewrite (loadHotkeys_object mainProcess (init (Some partial_blob))
               (Some partial_blob) (Some partial_blob)
               {[ "switch-en" := JStr "Alt+4"; "volume" := JStr "9" ]}
               eq_refl eq_refl).
    cbn [doc with_doc with_host]. rewrite lookup_load_entries.
    destruct (_ !! j); [|done]. by rewrite fmap_is_Some.
Qed.

(** X24. Loading when the bridge answers the read: no error is logged and
    the session is left alone.  When nothing is persisted, or the blob has no
    hotkeys section (or a falsy one), each of the six fields gets the
    default of its identifier.  When the blob has a hotkeys object, every
    element of the dialog whose id is a key of that object gets the
    persisted value assigned (an input keeps it without its line breaks),
    every other element keeps what it showed, and keys that are not the id
    of an element of the dialog have no effect. *)
Theorem loadHotkeys_applies_entries
    (gw : Handler) (w : World) (r blob' : option Blob) :
  has_inputs (doc w) →
  gw "get-settings" None (store w) = (Resolved r, blob') →
  let w' := loadHotkeys gw w in
  console w' = console w ∧
  session w' = session w ∧
  dom (doc w') = dom (doc w) ∧
  (truthy (default JUndefined (r ≫= (.!! "hotkeys"))) = false →
     ∀ id, id ∈ hotkeyInputs →
           defaultHotkeys !! id = Some (field (doc w') id)) ∧
  (∀ hk : Blob, r ≫= (.!! "hotkeys") = Some (JObj hk) →
     ∀ id, field (doc w') id =
             match hk !! id with
             | Some v =>
                 match doc w !! id with
                 | Some _ => value_assigned id v
                 | None => ""
                 end
             | None => field (doc w) id
             end).
Proof.
  intros Hin Hgw w'.
  assert (∃ hotkeys : Blob,
            js_or (default JUndefined (r ≫= (.!! "hotkeys")))
                  (JObj (JStr <$> defaultHotkeys)) = JObj hotkeys ∨
            (∃ entries, w' =
               with_doc (foldl load_entry (doc w) entries)
                 (with_host blob' (("get-settings", None) :: ipc_log w) w) ∧
               truthy (default JUndefined (r ≫= (.!! "hotkeys"))) = true ∧
               ∀ hk, r ≫= (.!! "hotkeys") ≠ Some (JObj hk)))
    as [hotkeys [Hobj|(entries & Hw' & Htr & Hnobj)]].
  { unfold js_or.
    destruct (default JUndefined (r ≫= (.!! "hotkeys"))) as [| |b|s|o] eqn:Hsec;
      cbn [truthy]; try (eexists; left; reflexivity).
    - destruct b; [|eexists; left; reflexivity].
      exists ∅. right. exists []. repeat split; [|intros hk Hk; by rewrite Hk in Hsec].
      subst w'. unfold loadHotkeys, try_catch. rewrite M_bind_unfold.
      rewrite window_api_getSettings, Hgw. cbv beta iota zeta.
      by rewrite Hsec.
    - destruct (negb (String.eqb s "")) eqn:Hs; [|eexists; left; reflexivity].
      exists ∅. right. eexists. repeat split; [|intros hk Hk; by rewrite Hk in Hsec].
      subst w'. unfold loadHotkeys, try_catch. rewrite M_bind_unfold.
      rewrite window_api_getSettings, Hgw. cbv beta iota zeta.
      rewrite Hsec. unfold js_or. cbn [truthy]. rewrite Hs.
      reflexivity. }
  - pose proof (loadHotkeys_resolved gw w r blob' Hgw hotkeys Hobj) as Hw'.
    fold w' in Hw'. rewrite Hw'. cbn [console session doc with_doc with_host
      isRecording currentInput].
    split; [done|]. split; [done|]. split; [|split].
    + apply set_eq. intros j. rewrite !elem_of_dom, lookup_load_entries.
      destruct (hotkeys !! j); [|done]. by rewrite fmap_is_Some.
    + intros Hf id Hid. unfold js_or in Hobj. rewrite Hf in Hobj.
      injection Hobj as <-.
      rewrite field_load_entries, lookup_fmap.
      destruct (default_of_input id Hid) as (s & Hs & _). rewrite Hs.
      cbn [fmap option_fmap option_map].
      destruct (Hin id Hid) as [el ->].
      by rewrite (value_assigned_default id s Hid Hs).
    + intros hk Hhk id. rewrite Hhk in Hobj. cbn in Hobj.
      injection Hobj as <-. apply field_load_entries.
  - rewrite Hw'. cbn [console session doc with_doc with_host
      isRecording currentInput].
    split; [done|]. split; [done|]. split; [|split].
    + apply set_eq. intros j. rewrite !elem_of_dom.
      assert (recording <$> foldl load_entry (doc w) entries !! j =
              recording <$> doc w !! j) as Hrec
        by apply recording_load_entries.
      destruct (foldl load_entry (doc w) entries !! j), (doc w !! j);
        simplify_eq/=; split; intros [? ?]; done || by eexists.
    + intros Hf. congruence.
    + intros hk Hhk. by destruct (Hnobj hk).
Qed.

(** ** Saving *)

Lemma foldl_insert_lookup {V} (g : string → V) ids (m : gmap string V) j :
  foldl (fun hk id => <[id := g id]> hk) m ids !! j =
    if decide (j ∈ ids) then Some (g j) else m !! j.
Proof.
  revert m. induction ids as [|i ids IH]; intros m; cbn [foldl].
  { case_decide; [set_solver|done]. }
  rewrite IH.
  destruct (decide (j ∈ ids)) as [Hin|Hnin].
  - by rewrite decide_True by (apply elem_of_cons; by right).
  - destruct (decide (i = j)) as [->|Hne].
    + rewrite lookup_insert_eq.
      by rewrite decide_True by (apply elem_of_cons; by left).
    + rewrite lookup_insert_ne by done.
      rewrite decide_False; [done|].
      intros [?|?]%elem_of_cons; congruence.
Qed.

Lemma collect_hotkeys_lookup (d : Document) j :
  collect_hotkeys d !! j =
    if decide (j ∈ hotkeyInputs) then Some (value_or_default d j) else None.
Proof.
  unfold collect_hotkeys.
  rewrite (foldl_insert_lookup (value_or_default d)).
  by case_decide.
Qed.

Lemma collect_hotkeys_dom (d : Document) :
  dom (collect_hotkeys d) = list_to_set hotkeyInputs.
Proof.
  apply set_eq. intros j.
  rewrite elem_of_dom, collect_hotkeys_lookup, elem_of_list_to_set.
  case_decide; split; intros H'; try done; try (by eexists); by destruct H'.
Qed.

Lemma value_or_default_input (d : Document) id :
  id ∈ hotkeyInputs →
  ∃ s, value_or_default d id = JStr s ∧ s ≠ "" ∧
       (field d id = "" → defaultHotkeys !! id = Some s) ∧
       (field d id ≠ "" → s = field d id).
Proof.
  intros Hid. unfold value_or_default, js_or. cbn [truthy].
  destruct (String.eqb (field d id) "") eqn:Heq; cbn [negb].
  - apply String.eqb_eq in Heq.
    destruct (default_of_input id Hid) as (s & Hs & Hne).
    exists s. unfold default_of. rewrite Hs. by repeat split.
  - apply String.eqb_neq in Heq.
    exists (field d id). by repeat split.
Qed.

(** What [saveHotkeys] does when the bridge answers both calls: the blob
    read, with its hotkeys section replaced, is written; the call that
    should close the dialog is a TypeError, caught and logged. *)
Lemma saveHotkeys_resolved (gw : Handler) (w : World) r blob1 r2 blob2 :
  gw "get-settings" None (store w) = (Resolved r, blob1) →
  gw "save-settings"
     (Some (<["hotkeys" := JObj (collect_hotkeys (doc w))]> (default ∅ r)))
     blob1 = (Resolved r2, blob2) →
  saveHotkeys gw w =
    console_error "Error saving hotkeys:"
      "TypeError: window.api.closeHotkeyDialog is not a function"
      (with_host blob2
         (("save-settings",
           Some (<["hotkeys" := JObj (collect_hotkeys (doc w))]> (default ∅ r)))
          :: ("get-settings", None) :: ipc_log w) w).
Proof.
  intros Hget Hset.
  unfold saveHotkeys, try_catch, get_doc. rewrite !M_bind_unfold.
  cbv beta iota zeta.
  rewrite window_api_getSettings, Hget. cbv beta iota zeta.
  rewrite M_bind_unfold, window_api_saveSettings.
  cbn [store with_host doc]. rewrite Hset. cbv beta iota zeta.
  rewrite M_bind_unfold, window_api_closeHotkeyDialog.
  reflexivity.
Qed.

(** The messages a save puts on the bridge: a read, then possibly a write
    of the blob read with its hotkeys section replaced, and nothing else. *)
Lemma saveHotkeys_messages (gw : Handler) (w : World) :
  ∃ r : option Blob,
    ipc_log (saveHotkeys gw w) = ("get-settings", None) :: ipc_log w ∨
    ipc_log (saveHotkeys gw w) =
      ("save-settings",
       Some (<["hotkeys" := JObj (collect_hotkeys (doc w))]> (default ∅ r)))
      :: ("get-settings", None) :: ipc_log w.
Proof.
  unfold saveHotkeys, try_catch, get_doc. rewrite !M_bind_unfold.
  cbv beta iota zeta. rewrite window_api_getSettings.
  destruct (gw "get-settings" None (store w)) as [[r|err] blob1];
    cbv beta iota zeta; [|exists None; by left].
  exists r. right.
  rewrite M_bind_unfold, window_api_saveSettings. cbn [store with_host doc].
  destruct (gw "save-settings" _ blob1) as [[r2|err] blob2];
    cbv beta iota zeta; [|done].
  by rewrite M_bind_unfold, window_api_closeHotkeyDialog.
Qed.

(** The messages of a save, by the answer to the read. *)
Lemma saveHotkeys_log (gw : Handler) (w : World) :
  ipc_log (saveHotkeys gw w) =
    (match gw "get-settings" None (store w) with
     | (Resolved r, _) =>
         [("save-settings",
           Some (<["hotkeys" := JObj (collect_hotkeys (doc w))]> (default ∅ r)));
          ("get-settings", None)]
     | (Rejected _, _) => [("get-settings", None)]
     end ++ ipc_log w)%list.
Proof.
  unfold saveHotkeys, try_catch, get_doc. rewrite !M_bind_unfold.
  cbv beta iota zeta. rewrite window_api_getSettings.
  destruct (gw "get-settings" None (store w)) as [[r|err] blob1];
    cbv beta iota zeta; [|done].
  rewrite M_bind_unfold, window_api_saveSettings. cbn [store with_host doc].
  destruct (gw "save-settings" _ blob1) as [[r2|err] blob2];
    cbv beta iota zeta; [|done].
  by rewrite M_bind_unfold, window_api_closeHotkeyDialog.
Qed.

(** C10. Whatever the main process answers, every write that a save of the
    dialog puts on the bridge carries a hotkeys section with exactly the six
    identifiers, each bound to a non-empty string: the default of the
    identifier when the field is empty, and what the field shows otherwise.
    And when the read is answered there is such a write: it carries the
    blob read (an empty object when nothing was persisted) with its hotkeys
    section replaced by the one collected from the fields. *)
Theorem saved_hotkeys_never_empty (gw : Handler) (w : World) :
  ∃ new : list (string * option Blob),
    ipc_log (saveHotkeys gw w) = (new ++ ipc_log w)%list ∧
    (∀ arg, ("save-settings", arg) ∈ new →
      ∃ settings hk : Blob,
        arg = Some settings ∧
        settings !! "hotkeys" = Some (JObj hk) ∧
        dom hk = list_to_set hotkeyInputs ∧
        ∀ id, id ∈ hotkeyInputs →
          ∃ s, hk !! id = Some (JStr s) ∧ s ≠ "" ∧
               (field (doc w) id = "" → defaultHotkeys !! id = Some s) ∧
               (field (doc w) id ≠ "" → s = field (doc w) id)) ∧
    (∀ r blob1,
       gw "get-settings" None (store w) = (Resolved r, blob1) →
       ("save-settings",
        Some (<["hotkeys" := JObj (collect_hotkeys (doc w))]> (default ∅ r)))
         ∈ new).
Proof.
  rewrite saveHotkeys_log.
  destruct (gw "get-settings" None (store w)) as [[r|err] blob1].
  - eexists [_; _]. split; [reflexivity|]. split.
    + intros arg Harg.
      apply elem_of_cons in Harg as [[= ->]|Harg];
        [|apply list_elem_of_singleton in Harg; done].
      eexists _, (collect_hotkeys (doc w)). split; [done|].
      split; [by rewrite lookup_insert_eq|].
      split; [apply collect_hotkeys_dom|].
      intros id Hid. rewrite collect_hotkeys_lookup, decide_True by done.
      destruct (value_or_default_input (doc w) id Hid) as (s & -> & Hs).
      by exists s.
    + intros r' blob1' [= <- <-]. apply elem_of_cons. by left.
  - exists [("get-settings", None)]. split; [done|]. split.
    + intros arg Harg. apply list_elem_of_singleton in Harg. done.
    + intros r blob1' [=].
Qed.

Lemma mainProcess_get (arg blob : option Blob) :
  mainProcess "get-settings" arg blob = (Resolved blob, blob).
Proof. reflexivity. Qed.

Lemma mainProcess_set (settings : Blob) (blob : option Blob) :
  mainProcess "save-settings" (Some settings) blob
    = (Resolved None, Some settings).
Proof. reflexivity. Qed.

Lemma saveHotkeys_store (w : World) :
  store (saveHotkeys mainProcess w) =
    Some (<["hotkeys" := JObj (collect_hotkeys (doc w))]> (default ∅ (store w))).
Proof.
  by rewrite (saveHotkeys_resolved mainProcess w (store w) (store w) None _
                (mainProcess_get _ _) (mainProcess_set _ _)).
Qed.

(** X1. With main.js behind the bridge, a save of the dialog keeps every
    section of the persisted blob other than the hotkeys section, and
    replaces the hotkeys section by the one collected from the fields. *)
Lemma saveHotkeys_keeps_other_sections (w : World) (k : string) :
  k ≠ "hotkeys" →
  store (saveHotkeys mainProcess w) ≫= (.!! k) = store w ≫= (.!! k) ∧
  store (saveHotkeys mainProcess w) ≫= (.!! "hotkeys")
    = Some (JObj (collect_hotkeys (doc w))).
Proof.
  intros Hk. rewrite saveHotkeys_store. cbn [mbind option_bind]. split.
  - rewrite lookup_insert_ne by done. by destruct (store w).
  - by rewrite lookup_insert_eq.
Qed.

(** C7. With main.js behind the bridge and no other write in between,
    saving a dialog whose six fields are all non-empty (and, as the value
    of a text input is, without line break) and then loading into a dialog
    shows, in each of the six fields, what the saved dialog showed; the
    store holds these strings in between. *)
Theorem save_then_load_roundtrip (w w0 : World) :
  has_inputs (doc w0) →
  (∀ id, id ∈ hotkeyInputs →
         field (doc w) id ≠ "" ∧ single_line (field (doc w) id)) →
  let saved := saveHotkeys mainProcess w in
  let reopened :=
    loadHotkeys mainProcess (with_host (store saved) (ipc_log saved) w0) in
  ∀ id, id ∈ hotkeyInputs →
    persisted_hotkey (store saved) id = Some (JStr (field (doc w) id)) ∧
    field (doc reopened) id = field (doc w) id.
Proof.
  intros Hin0 Hne saved reopened id Hid.
  assert (store saved ≫= (.!! "hotkeys") = Some (JObj (collect_hotkeys (doc w))))
    as Hsec.
  { unfold saved. rewrite saveHotkeys_store. cbn [mbind option_bind].
    by rewrite lookup_insert_eq. }
  destruct (Hne id Hid) as [Hid_ne Hid_line].
  destruct (value_or_default_input (doc w) id Hid) as (s & Hs & _ & _ & Hfield).
  specialize (Hfield Hid_ne). subst s.
  split.
  - unfold saved. rewrite saveHotkeys_store. unfold persisted_hotkey.
    rewrite lookup_insert_eq, collect_hotkeys_lookup, decide_True by done.
    by rewrite Hs.
  - unfold reopened.
    rewrite (loadHotkeys_object mainProcess
               (with_host (store saved) (ipc_log saved) w0)
               (store saved) (store saved) _ (mainProcess_get _ _) Hsec).
    cbn [doc with_doc with_host].
    rewrite field_load_entries, collect_hotkeys_lookup, decide_True by done.
    destruct (Hin0 id Hid) as [el ->]. rewrite Hs.
    by rewrite value_assigned_input.
Qed.

(** C8. The scenario of the dialog opened over an empty store, [switch-en]
    activated, Alt+4 pressed and Save clicked: the persisted hotkeys section
    holds [Alt+4] for [switch-en], but the bridge has no method
    [closeHotkeyDialog], so the only messages that reach the host are the
    reads and the write, and the TypeError ends up on the console. *)
Theorem save_scenario_never_closes_dialog :
  let e := {| ctrlKey := false; altKey := true; shiftKey := false;
              key := "4" |} in
  let w := run asciiToUpperCase mainProcess
             [DOMContentLoaded; Click "switch-en"; KeyDown e; SaveClick]
             (init None) in
  map (field (doc w)) hotkeyInputs =
    ["Alt+Space"; "Alt+H"; "Alt+B"; "Alt+4"; "Alt+2"; "Alt+3"] ∧
  persisted_hotkey (store w) "switch-en" = Some (JStr "Alt+4") ∧
  api_method "closeHotkeyDialog" = None ∧
  map fst (ipc_log w) = ["save-settings"; "get-settings"; "get-settings"] ∧
  console w =
    ["Error saving hotkeys: TypeError: window.api.closeHotkeyDialog is not a function"].
Proof. vm_compute. repeat split. Qed.

(** C9. A save of the main window puts a single message on the bridge, the
    write of an object built from its own controls: it does not read the
    blob first, the object has no hotkeys section, and with main.js behind
    the bridge the persisted blob has no hotkeys afterwards, whatever it
    held. *)
Theorem main_window_save_drops_hotkeys (f : MainForm) (w : World) :
  (∀ gw, ipc_log (saveSettings gw f w) =
           ("save-settings", Some (main_settings f)) :: ipc_log w) ∧
  main_settings f !! "hotkeys" = None ∧
  store (saveSettings mainProcess f w) = Some (main_settings f) ∧
  (∀ id, persisted_hotkey (store (saveSettings mainProcess f w)) id = None).
Proof.
  split; [|split; [|split]].
  - intros gw. unfold saveSettings, try_catch. rewrite M_bind_unfold.
    rewrite window_api_saveSettings.
    by destruct (gw "save-settings" _ (store w)) as [[r|err] blob].
  - reflexivity.
  - reflexivity.
  - intros id. reflexivity.
Qed.

(** * Instances on sample states *)

Lemma a_not_modifier_key : "a" ∉ modifier_keys.
Proof. apply (bool_decide_unpack _). by vm_compute. Qed.

Lemma toggle_bar_is_input : "toggle-bar" ∈ hotkeyInputs.
Proof. apply (bool_decide_unpack _). by vm_compute. Qed.

Lemma switch_en_is_input : "switch-en" ∈ hotkeyInputs.
Proof. apply (bool_decide_unpack _). by vm_compute. Qed.

Lemma push_to_talk_is_input : "push-to-talk" ∈ hotkeyInputs.
Proof. apply (bool_decide_unpack _). by vm_compute. Qed.

Lemma recorded_alt_4_has_inputs : has_inputs (doc recorded_alt_4).
Proof. solve_has_inputs. Qed.

Lemma capturing_toggle_bar_has_inputs : has_inputs (doc capturing_toggle_bar).
Proof. solve_has_inputs. Qed.

Lemma recorded_alt_4_nonempty id :
  id ∈ hotkeyInputs →
  field (doc recorded_alt_4) id ≠ "" ∧ single_line (field (doc recorded_alt_4) id).
Proof.
  intros Hid.
  assert (Forall (fun i => field (doc recorded_alt_4) i ≠ "" ∧
                           single_line (field (doc recorded_alt_4) i))
            hotkeyInputs) as HF
    by (unfold hotkeyInputs; repeat constructor; by vm_compute).
  exact (proj1 (Forall_forall _ _) HF id Hid).
Qed.

(** Shift pressed before Ctrl, then the key [a]. *)
Lemma hotkeyString_canonical_witness :
  hotkeyString asciiToUpperCase (chord_event [Shift; Ctrl] "a")
    = Some "Ctrl+Shift+A".
Proof.
  exact (proj1 (proj2 (hotkeyString_canonical asciiToUpperCase
                         [Shift; Ctrl] "a" a_not_modifier_key))).
Defined.

(** [toggle-bar] abandoned while it shows the placeholder. *)
Lemma blur_abandons_capturing_field_witness :
  session (handle asciiToUpperCase mainProcess (Blur "toggle-bar")
             capturing_toggle_bar) = None ∧
  defaultHotkeys !! "toggle-bar" =
    Some (field (doc (handle asciiToUpperCase mainProcess (Blur "toggle-bar")
                        capturing_toggle_bar)) "toggle-bar").
Proof.
  pose proof (blur_abandons_capturing_field asciiToUpperCase mainProcess
                capturing_toggle_bar "toggle-bar" "toggle-bar"
                capturing_toggle_bar_has_inputs
                toggle_bar_is_input toggle_bar_is_input
                eq_refl eq_refl) as (Hs & _ & _ & Hd & _).
  split; [exact Hs|]. apply Hd. reflexivity.
Defined.

(** Reset after Alt+4 was recorded into [switch-en]. *)
Lemma resetHotkeys_defaults_idempotent_witness :
  map (field (doc (resetHotkeys recorded_alt_4))) hotkeyInputs =
    ["Alt+Space"; "Alt+H"; "Alt+B"; "Alt+1"; "Alt+2"; "Alt+3"] ∧
  resetHotkeys (resetHotkeys recorded_alt_4) = resetHotkeys recorded_alt_4.
Proof.
  pose proof (resetHotkeys_defaults_idempotent recorded_alt_4
                recorded_alt_4_has_inputs) as (Hd & _ & Hi).
  split; [exact Hd|exact Hi].
Defined.

(** Loading over nothing persisted, and over the partial blob. *)
Lemma loadHotkeys_applies_entries_witness :
  (defaultHotkeys !! "toggle-bar" =
     Some (field (doc (loadHotkeys mainProcess (init None))) "toggle-bar") ∧
   console (loadHotkeys mainProcess (init None)) = []) ∧
  (field (doc (loadHotkeys mainProcess (init (Some partial_blob)))) "switch-en"
     = "Alt+4" ∧
   field (doc (loadHotkeys mainProcess (init (Some partial_blob)))) "toggle-bar"
     = "" ∧
   dom (doc (loadHotkeys mainProcess (init (Some partial_blob))))
     = dom initial_doc).
Proof.
  split.
  - pose proof (loadHotkeys_applies_entries mainProcess (init None) None None
                  has_inputs_initial eq_refl) as (Hc & _ & _ & Hdef & _).
    split; [|exact Hc]. apply Hdef; [reflexivity|exact toggle_bar_is_input].
  - pose proof (loadHotkeys_applies_entries mainProcess
                  (init (Some partial_blob)) (Some partial_blob)
                  (Some partial_blob) has_inputs_initial eq_refl)
      as (_ & _ & Hdom & _ & Hobj).
    split; [|split; [|exact Hdom]].
    + exact (Hobj {[ "switch-en" := JStr "Alt+4"; "volume" := JStr "9" ]}
               eq_refl "switch-en").
    + exact (Hobj {[ "switch-en" := JStr "Alt+4"; "volume" := JStr "9" ]}
               eq_refl "toggle-bar").
Defined.

(** Alt+4 recorded into [switch-en], saved, and loaded into a new dialog. *)
Lemma save_then_load_roundtrip_witness :
  persisted_hotkey (store (saveHotkeys mainProcess recorded_alt_4)) "switch-en"
    = Some (JStr "Alt+4") ∧
  field (doc (loadHotkeys mainProcess
                (with_host (store (saveHotkeys mainProcess recorded_alt_4))
                           (ipc_log (saveHotkeys mainProcess recorded_alt_4))
                           (init None)))) "switch-en" = "Alt+4" ∧
  field (doc (loadHotkeys mainProcess
                (with_host (store (saveHotkeys mainProcess recorded_alt_4))
                           (ipc_log (saveHotkeys mainProcess recorded_alt_4))
                           (init None)))) "push-to-talk" = "Alt+Space".
Proof.
  pose proof (save_then_load_roundtrip recorded_alt_4 (init None)
                has_inputs_initial recorded_alt_4_nonempty) as H.
  split; [|split].
  - exact (proj1 (H "switch-en" switch_en_is_input)).
  - exact (proj2 (H "switch-en" switch_en_is_input)).
  - exact (proj2 (H "push-to-talk" push_to_talk_is_input)).
Defined.

(** The dialog opened over the partial blob and saved: a write is sent, its
    hotkeys section binds [switch-en] to what the field shows and
    [toggle-bar], whose field is empty, to its default. *)
Lemma saved_hotkeys_never_empty_witness :
  ∃ hk : Blob,
    ("save-settings", Some (<["hotkeys" := JObj hk]> partial_blob))
      ∈ ipc_log (saveHotkeys mainProcess
                   (loadHotkeys mainProcess (init (Some partial_blob)))) ∧
    hk !! "switch-en" = Some (JStr "Alt+4") ∧
    hk !! "toggle-bar" = Some (JStr "Alt+B").
Proof.
  destruct (saved_hotkeys_never_empty mainProcess
              (loadHotkeys mainProcess (init (Some partial_blob))))
    as (new & Hlog & Hall & Hsent).
  specialize (Hsent (Some partial_blob) (Some partial_blob) eq_refl).
  destruct (Hall _ Hsent) as (settings & hk & [= <-] & Hsec & _ & Hhk).
  rewrite lookup_insert_eq in Hsec. injection Hsec as <-.
  eexists. split; [rewrite Hlog; apply elem_of_app; left; exact Hsent|].
  split.
  - destruct (Hhk "switch-en" switch_en_is_input) as (s & -> & _ & _ & Hs).
    by rewrite (Hs ltac:(by vm_compute)).
  - destruct (Hhk "toggle-bar" toggle_bar_is_input) as (s & -> & _ & Hs & _).
    specialize (Hs ltac:(by vm_compute)). by injection Hs as <-.
Defined.


(** The Shift key reported without any flag. *)
Lemma keydown_modifier_without_flags_witness :
  hotkeyString asciiToUpperCase
    {| ctrlKey := false; altKey := false; shiftKey := false; key := "Shift" |}
    = None.
Proof.
  assert ("Shift" ∈ modifier_keys) as HK
    by (apply (bool_decide_unpack _); vm_compute; exact I).
  exact (proj1 (keydown_modifier_without_flags asciiToUpperCase "Shift"
                  capturing_toggle_bar HK)).
Defined.

(** The dialog saved over the partial blob: the audio section survives. *)
Lemma saveHotkeys_keeps_other_sections_witness :
  store (saveHotkeys mainProcess (init (Some partial_blob)))
    ≫= (.!! "muteAudio") = Some (JBool true).
Proof.
  assert ("muteAudio" ≠ "hotkeys") as Hk by discriminate.
  exact (proj1 (saveHotkeys_keeps_other_sections (init (Some partial_blob))
                  "muteAudio" Hk)).
Defined.

(** The dialog opened over an empty store, [toggle-bar] clicked and then
    [switch-es] clicked with no key in between: [toggle-bar] is back at its
    default and [switch-es] is capturing. *)
Example preemption_scenario :
  let w := handle asciiToUpperCase mainProcess (Click "switch-es")
             capturing_toggle_bar in
  field (doc w) "toggle-bar" = "Alt+B" ∧
  field (doc w) "switch-es" = "Recording..." ∧
  session w = Some "switch-es" ∧
  map (marked (doc w)) hotkeyInputs = [false; false; false; false; false; true].
Proof. vm_compute. repeat split. Qed.

(** * Further properties of the hotkey dialog *)

(** ** Failures of the bridge *)

(** X4. When the read of the settings is rejected, loading logs the reason
    once and changes nothing else in the window: every element keeps its
    value (the fields do not get their defaults) and the session is as it
    was.  Only the read went over the bridge. *)
Lemma loadHotkeys_rejected
    (gw : Handler) (w : World) (err : string) (blob' : option Blob) :
  gw "get-settings" None (store w) = (Rejected err, blob') →
  let w' := loadHotkeys gw w in
  doc w' = doc w ∧
  session w' = session w ∧
  console w' = ("Error loading hotkeys: " ++ err) :: console w ∧
  ipc_log w' = ("get-settings", None) :: ipc_log w.
Proof.
  intros Hgw w'. subst w'.
  unfold loadHotkeys, try_catch. rewrite M_bind_unfold.
  by rewrite window_api_getSettings, Hgw.
Qed.

(** X5. When the read of the settings is rejected, a save writes nothing:
    the only message on the bridge is the read, the reason is logged, and
    the window is as it was. *)
Lemma saveHotkeys_read_rejected
    (gw : Handler) (w : World) (err : string) (blob' : option Blob) :
  gw "get-settings" None (store w) = (Rejected err, blob') →
  let w' := saveHotkeys gw w in
  ipc_log w' = ("get-settings", None) :: ipc_log w ∧
  store w' = blob' ∧
  console w' = ("Error saving hotkeys: " ++ err) :: console w ∧
  doc w' = doc w ∧ session w' = session w.
Proof.
  intros Hgw w'. subst w'.
  unfold saveHotkeys, try_catch, get_doc. rewrite !M_bind_unfold.
  cbv beta iota zeta.
  by rewrite window_api_getSettings, Hgw.
Qed.

(** X6. When the read is answered and the write is rejected, a save logs
    the reason of the rejection and stops there: the call that should close
    the dialog is not reached, so its TypeError is not what is logged. *)
Lemma saveHotkeys_write_rejected
    (gw : Handler) (w : World) r blob1 (err : string) blob2 :
  gw "get-settings" None (store w) = (Resolved r, blob1) →
  gw "save-settings"
     (Some (<["hotkeys" := JObj (collect_hotkeys (doc w))]> (default ∅ r)))
     blob1 = (Rejected err, blob2) →
  let w' := saveHotkeys gw w in
  console w' = ("Error saving hotkeys: " ++ err) :: console w ∧
  store w' = blob2 ∧
  ipc_log w' =
    ("save-settings",
     Some (<["hotkeys" := JObj (collect_hotkeys (doc w))]> (default ∅ r)))
    :: ("get-settings", None) :: ipc_log w ∧
  doc w' = doc w ∧ session w' = session w.
Proof.
  intros Hget Hset w'. subst w'.
  unfold saveHotkeys, try_catch, get_doc. rewrite !M_bind_unfold.
  cbv beta iota zeta.
  rewrite window_api_getSettings, Hget. cbv beta iota zeta.
  rewrite M_bind_unfold, window_api_saveSettings.
  cbn [store with_host doc]. by rewrite Hset.
Qed.

Lemma loadHotkeys_rejected_witness :
  map (field (doc (loadHotkeys offlineGateway (init None)))) hotkeyInputs
    = [""; ""; ""; ""; ""; ""] ∧
  console (loadHotkeys offlineGateway (init None))
    = ["Error loading hotkeys: offline"].
Proof.
  pose proof (loadHotkeys_rejected offlineGateway (init None) "offline" None
                eq_refl) as (Hd & _ & Hc & _).
  split; [by rewrite Hd|exact Hc].
Defined.

Lemma saveHotkeys_read_rejected_witness :
  ipc_log (saveHotkeys offlineGateway recorded_alt_4)
    = ("get-settings", None) :: ipc_log recorded_alt_4 ∧
  store (saveHotkeys offlineGateway recorded_alt_4) = store recorded_alt_4.
Proof.
  pose proof (saveHotkeys_read_rejected offlineGateway recorded_alt_4
                "offline" (store recorded_alt_4) eq_refl) as (Hl & Hs & _).
  split; [exact Hl|exact Hs].
Defined.

Lemma saveHotkeys_write_rejected_witness :
  console (saveHotkeys readOnlyGateway recorded_alt_4)
    = ["Error saving hotkeys: read-only"] ∧
  store (saveHotkeys readOnlyGateway recorded_alt_4) = None.
Proof.
  pose proof (saveHotkeys_write_rejected readOnlyGateway recorded_alt_4
                (store recorded_alt_4) (store recorded_alt_4) "read-only"
                (store recorded_alt_4) eq_refl eq_refl) as (Hc & Hs & _).
  split; [exact Hc|exact Hs].
Defined.

(** ** Loading twice, and loading before saving *)

Lemma lookup_load_entry (d : Document) i v j :
  load_entry d (i, v) !! j =
    if decide (i = j)
    then (fun el => {| value := value_assigned i v; recording := recording el |})
           <$> d !! j
    else d !! j.
Proof.
  unfold load_entry. destruct (d !! i) eqn:Hi.
  - apply lookup_set_value.
  - case_decide; [subst; by rewrite Hi|done].
Qed.

(** The entries of any list, applied in order: the last entry of an id
    decides. *)
Lemma foldl_load_entry_last (l : list (string * JsVal)) (d : Document) j :
  foldl load_entry d l !! j =
    match (list_to_map (reverse l) : Blob) !! j with
    | Some v =>
        (fun el => {| value := value_assigned j v; recording := recording el |})
          <$> d !! j
    | None => d !! j
    end.
Proof.
  induction l as [|[i v] l IH] using rev_ind; [done|].
  rewrite foldl_app, reverse_snoc. cbn [foldl list_to_map foldr uncurry fst snd].
  rewrite lookup_load_entry, IH.
  destruct (decide (i = j)) as [->|Hne].
  - rewrite lookup_insert_eq.
    destruct (list_to_map (reverse l) !! j); by destruct (d !! j).
  - by rewrite lookup_insert_ne.
Qed.

Lemma foldl_load_entry_twice (l : list (string * JsVal)) (d : Document) :
  foldl load_entry (foldl load_entry d l) l = foldl load_entry d l.
Proof.
  apply map_eq. intros j. rewrite (foldl_load_entry_last l (foldl _ _ _)).
  rewrite foldl_load_entry_last.
  destruct (list_to_map (reverse l) !! j); [|done]. by destruct (d !! j).
Qed.

(** With main.js behind the bridge, what loading applies depends on the
    persisted blob alone. *)
Lemma loadHotkeys_entries (s : option Blob) :
  ∃ entries : list (string * JsVal),
    ∀ w, store w = s →
      loadHotkeys mainProcess w =
        with_doc (foldl load_entry (doc w) entries)
          (with_host s (("get-settings", None) :: ipc_log w) w).
Proof.
  destruct (object_entries
              (js_or (default JUndefined (s ≫= (.!! "hotkeys")))
                     (JObj (JStr <$> defaultHotkeys)))) as [entries|] eqn:He.
  - exists entries. intros w <-.
    unfold loadHotkeys, try_catch. rewrite M_bind_unfold.
    rewrite window_api_getSettings, mainProcess_get. cbv beta iota zeta.
    by rewrite He.
  - exfalso. unfold js_or in He.
    destruct (default JUndefined (s ≫= (.!! "hotkeys"))) as [| |[]|?|?];
      try done.
    cbn [truthy] in He. by destruct (negb _).
Qed.

(** X7. With main.js behind the bridge, loading a second time changes no
    element: what the dialog shows after two loads is what it shows after
    one, whatever is persisted; each load reads once over the bridge, logs
    no error and leaves the store as it is. *)
Theorem loadHotkeys_twice (w : World) :
  doc (loadHotkeys mainProcess (loadHotkeys mainProcess w))
    = doc (loadHotkeys mainProcess w) ∧
  store (loadHotkeys mainProcess (loadHotkeys mainProcess w)) = store w ∧
  console (loadHotkeys mainProcess (loadHotkeys mainProcess w)) = console w ∧
  ipc_log (loadHotkeys mainProcess (loadHotkeys mainProcess w))
    = ("get-settings", None) :: ("get-settings", None) :: ipc_log w.
Proof.
  destruct (loadHotkeys_entries (store w)) as [entries He].
  rewrite (He w eq_refl).
  rewrite (He (with_doc _ (with_host (store w) _ w)) eq_refl).
  cbn [doc store console ipc_log with_doc with_host].
  split; [|done]. apply foldl_load_entry_twice.
Qed.

Lemma defaultHotkeys_outside (j : string) :
  j ∉ hotkeyInputs → defaultHotkeys !! j = None.
Proof. intros Hj. by apply not_elem_of_list_to_map_1. Qed.

(** X8. With main.js behind the bridge, loading a blob whose hotkeys
    section binds exactly the six identifiers to non-empty strings without
    line break shows these strings in the six fields, and saving right away
    writes and persists the very same blob. *)
Theorem load_then_save_restores_blob (w : World) (b hk : Blob) :
  has_inputs (doc w) →
  store w = Some b →
  b !! "hotkeys" = Some (JObj hk) →
  dom hk = list_to_set hotkeyInputs →
  (∀ id v, hk !! id = Some v → ∃ s, v = JStr s ∧ s ≠ "" ∧ single_line s) →
  (∀ id, id ∈ hotkeyInputs →
     hk !! id = Some (JStr (field (doc (loadHotkeys mainProcess w)) id))) ∧
  ("save-settings", Some b)
    ∈ ipc_log (saveHotkeys mainProcess (loadHotkeys mainProcess w)) ∧
  store (saveHotkeys mainProcess (loadHotkeys mainProcess w)) = Some b.
Proof.
  intros Hin Hst Hsec Hdom Hstr.
  assert (store w ≫= (.!! "hotkeys") = Some (JObj hk)) as Hsec'
    by by rewrite Hst.
  assert (∀ id, id ∈ hotkeyInputs →
            hk !! id = Some (JStr (field (doc (loadHotkeys mainProcess w)) id)))
    as Hshown.
  { intros id Hid.
    rewrite (loadHotkeys_object mainProcess w (store w) (store w) hk
               (mainProcess_get _ _) Hsec').
    cbn [doc with_doc with_host]. rewrite field_load_entries.
    assert (is_Some (hk !! id)) as [v Hv].
    { apply elem_of_dom. rewrite Hdom. by apply elem_of_list_to_set. }
    destruct (Hstr id v Hv) as (s & -> & _ & Hline).
    rewrite Hv. destruct (Hin id Hid) as [el ->].
    by rewrite (value_assigned_input id s Hid), Hline. }
  split; [exact Hshown|].
  assert (store (saveHotkeys mainProcess (loadHotkeys mainProcess w)) = Some b)
    as Hstore; [|split; [|exact Hstore]].
  2: { rewrite saveHotkeys_log, mainProcess_get.
       apply elem_of_app. left. apply elem_of_cons. left.
       rewrite saveHotkeys_store in Hstore. by rewrite Hstore. }
  rewrite saveHotkeys_store.
  rewrite (loadHotkeys_object mainProcess w (store w) (store w) hk
             (mainProcess_get _ _) Hsec').
  cbn [doc store with_doc with_host]. rewrite Hst. cbn [default].
  f_equal. apply insert_id. rewrite Hsec. do 2 f_equal.
  apply map_eq. intros j. rewrite collect_hotkeys_lookup.
  case_decide as Hj.
  - assert (is_Some (hk !! j)) as [v Hv].
    { apply elem_of_dom. rewrite Hdom. by apply elem_of_list_to_set. }
    destruct (Hstr j v Hv) as (s & -> & Hs & Hline).
    rewrite Hv. f_equal. unfold value_or_default, js_or.
    rewrite field_load_entries, Hv.
    destruct (Hin j Hj) as [el ->].
    rewrite (value_assigned_input j s Hj), Hline. cbn [truthy].
    by apply String.eqb_neq in Hs as ->.
  - apply (not_elem_of_dom (D := gset string)). rewrite Hdom.
    by rewrite elem_of_list_to_set.
Qed.

(** X9. With main.js behind the bridge, a dialog opened over a store with no
    hotkeys section (nothing persisted, or a blob without one) and saved
    right away persists the default table as the hotkeys section and keeps
    the rest of the blob. *)
Theorem first_save_persists_defaults (w : World) :
  has_inputs (doc w) →
  truthy (default JUndefined (store w ≫= (.!! "hotkeys"))) = false →
  store (saveHotkeys mainProcess (loadHotkeys mainProcess w)) =
    Some (<["hotkeys" := JObj (JStr <$> defaultHotkeys)]> (default ∅ (store w))).
Proof.
  intros Hin Hf.
  rewrite saveHotkeys_store.
  rewrite (loadHotkeys_resolved mainProcess w (store w) (store w)
             (mainProcess_get _ _) (JStr <$> defaultHotkeys))
    by (unfold js_or; by rewrite Hf).
  cbn [doc store with_doc with_host]. do 4 f_equal.
  apply map_eq. intros j. rewrite collect_hotkeys_lookup, lookup_fmap.
  case_decide as Hj.
  - destruct (default_of_input j Hj) as (s & Hs & Hne).
    rewrite Hs. cbn [fmap option_fmap option_map]. f_equal.
    unfold value_or_default, js_or.
    rewrite field_load_entries, lookup_fmap, Hs.
    destruct (Hin j Hj) as [el ->]. cbn [fmap option_fmap option_map].
    rewrite (value_assigned_default j s Hj Hs). cbn [truthy].
    by apply String.eqb_neq in Hne as ->.
  - by rewrite defaultHotkeys_outside.
Qed.

Lemma load_then_save_restores_blob_witness :
  store (saveHotkeys mainProcess
           (loadHotkeys mainProcess (init (Some complete_blob))))
    = Some complete_blob.
Proof.
  apply (load_then_save_restores_blob (init (Some complete_blob))
           complete_blob (JStr <$> custom_hotkeys)
           has_inputs_initial eq_refl eq_refl).
  - rewrite dom_fmap_L. reflexivity.
  - intros id v Hv. apply lookup_fmap_Some in Hv as (s & <- & Hs).
    exists s. split; [reflexivity|].
    assert (map_Forall (fun _ s => s ≠ "" ∧ strip_newlines s = s)
              custom_hotkeys) as HF
      by (apply (bool_decide_unpack _); vm_compute; exact I).
    exact (HF id s Hs).
Defined.

Lemma first_save_persists_defaults_witness :
  store (saveHotkeys mainProcess (loadHotkeys mainProcess (init None))) =
    Some (<["hotkeys" := JObj (JStr <$> defaultHotkeys)]> ∅).
Proof.
  exact (first_save_persists_defaults (init None) has_inputs_initial eq_refl).
Defined.

(** ** Clicking, resetting and pressing keys *)

(** X10. Activating an element of the dialog makes it the capturing
    field, whatever the session was: it shows the placeholder, carries the
    mark and the session captures it.  Activating it a second time in a row
    changes nothing. *)
Theorem startRecording_again (input : string) (w : World) :
  is_Some (doc w !! input) →
  let w' := startRecording input w in
  session w' = Some input ∧
  field (doc w') input = "Recording..." ∧
  marked (doc w') input = true ∧
  startRecording input w' = w'.
Proof.
  intros Hel w'. subst w'.
  destruct (startRecording_entered input w Hel) as (Hs & Hf & Hm).
  split; [done|]. split; [done|]. split; [done|].
  assert (∀ w1,
    startRecording input
      (with_session true (Some input)
         (with_doc (set_recording input true
                      (set_value input "Recording..." (doc w1))) w1))
    = with_session true (Some input)
        (with_doc (set_recording input true
                     (set_value input "Recording..." (doc w1))) w1)) as Hstep.
  { intros w1. unfold startRecording, stopRecording, with_session, with_doc.
    cbn [isRecording currentInput doc console prevented store ipc_log].
    f_equal. apply map_eq. intros j.
    destruct (String.eqb _ _);
      repeat first [rewrite lookup_set_recording | rewrite lookup_set_value];
      repeat case_decide; try done; by destruct (doc w1 !! j). }
  unfold startRecording at 2 3.
  destruct (isRecording w); apply Hstep.
Qed.

Lemma not_placeholder_default (id : string) :
  id ∈ hotkeyInputs →
  String.eqb (to_value_string (default_of id)) "Recording..." = false.
Proof.
  intros Hid.
  assert (Forall (fun i => String.eqb (to_value_string (default_of i))
                             "Recording..." = false) hotkeyInputs) as HF
    by (unfold hotkeyInputs; repeat constructor).
  exact (proj1 (Forall_forall _ _) HF id Hid).
Qed.

(** X11. A reset while a field is capturing does not close the session: the
    field stays the capturing one and keeps its mark, but shows its default
    instead of the placeholder.  When the field then loses focus, all six
    fields show the default table and the session is idle. *)
Theorem reset_while_capturing (w : World) (f : string) :
  has_inputs (doc w) → f ∈ hotkeyInputs →
  isRecording w = true → currentInput w = Some f →
  session (resetHotkeys w) = Some f ∧
  marked (doc (resetHotkeys w)) f = marked (doc w) f ∧
  defaultHotkeys !! f = Some (field (doc (resetHotkeys w)) f) ∧
  map (field (doc (stopRecording (resetHotkeys w)))) hotkeyInputs =
    ["Alt+Space"; "Alt+H"; "Alt+B"; "Alt+1"; "Alt+2"; "Alt+3"] ∧
  session (stopRecording (resetHotkeys w)) = None.
Proof.
  intros Hin Hf Hrec Hcur.
  assert (∀ j, j ∈ hotkeyInputs →
            field (doc (stopRecording (resetHotkeys w))) j
              = to_value_string (default_of j)) as Hall.
  { intros j Hj.
    rewrite (field_stopRecording (resetHotkeys w) f j) by done.
    rewrite !field_resetHotkeys by done.
    rewrite not_placeholder_default by done.
    by case_decide; subst. }
  split; [|split; [|split; [|split]]].
  - unfold session. cbn [isRecording currentInput resetHotkeys with_doc].
    by rewrite Hrec.
  - unfold marked, resetHotkeys. cbn [doc with_doc].
    pose proof (recording_reset_entries hotkeyInputs (doc w) f) as Hr.
    destruct (foldl _ _ _ !! f), (doc w !! f); simplify_eq/=; done.
  - rewrite field_resetHotkeys by done.
    destruct (default_of_input f Hf) as (s & Hs & _).
    unfold default_of. by rewrite Hs.
  - unfold hotkeyInputs at 1. cbn [map].
    rewrite !Hall by (apply (bool_decide_unpack _); by vm_compute).
    reflexivity.
  - done.
Qed.

Lemma reset_while_capturing_witness :
  session (resetHotkeys capturing_toggle_bar) = Some "toggle-bar" ∧
  map (field (doc (stopRecording (resetHotkeys capturing_toggle_bar))))
      hotkeyInputs =
    ["Alt+Space"; "Alt+H"; "Alt+B"; "Alt+1"; "Alt+2"; "Alt+3"].
Proof.
  pose proof (reset_while_capturing capturing_toggle_bar "toggle-bar"
                capturing_toggle_bar_has_inputs toggle_bar_is_input
                eq_refl eq_refl) as (Hs & _ & _ & Hd & _).
  split; [exact Hs|exact Hd].
Defined.

(** The Shift key pressed on its own while [toggle-bar] is capturing. *)
Lemma keydown_modifier_with_flags_witness :
  hotkeyString asciiToUpperCase
    {| ctrlKey := false; altKey := false; shiftKey := true; key := "Shift" |}
    = Some "Shift" ∧
  field (doc (keydown asciiToUpperCase
                {| ctrlKey := false; altKey := false; shiftKey := true;
                   key := "Shift" |} capturing_toggle_bar)) "toggle-bar"
    = "Shift" ∧
  session (keydown asciiToUpperCase
             {| ctrlKey := false; altKey := false; shiftKey := true;
                key := "Shift" |} capturing_toggle_bar) = None.
Proof.
  assert ("Shift" ∈ modifier_keys) as HK
    by (apply (bool_decide_unpack _); vm_compute; exact I).
  assert (is_Some (doc capturing_toggle_bar !! "toggle-bar")) as Hel
    by (vm_compute; eauto).
  exact (keydown_modifier_with_flags asciiToUpperCase
           {| ctrlKey := false; altKey := false; shiftKey := true;
              key := "Shift" |} capturing_toggle_bar "toggle-bar"
           HK eq_refl eq_refl eq_refl Hel).
Defined.

(** Ctrl held and [toggle-bar] clicked again while it is capturing. *)
Lemma startRecording_again_witness :
  session (startRecording "toggle-bar" capturing_toggle_bar)
    = Some "toggle-bar" ∧
  field (doc (startRecording "toggle-bar" capturing_toggle_bar)) "toggle-bar"
    = "Recording..." ∧
  startRecording "toggle-bar"
    (startRecording "toggle-bar" capturing_toggle_bar)
    = startRecording "toggle-bar" capturing_toggle_bar.
Proof.
  assert (is_Some (doc capturing_toggle_bar !! "toggle-bar")) as Hel
    by (vm_compute; eauto).
  destruct (startRecording_again "toggle-bar" capturing_toggle_bar Hel)
    as (Hs & Hf & _ & Hi).
  split; [exact Hs|]. split; [exact Hf|exact Hi].
Defined.

(** The dialog opened over an empty store and [toggle-bar] clicked; then
    [switch-es] clicked with no key in between: [switch-es] is capturing
    and [toggle-bar], which showed the placeholder, is back at its
    default without the mark. *)
Lemma recording_session_single_slot_witness :
  session (handle asciiToUpperCase mainProcess (Click "switch-es")
             capturing_toggle_bar) = Some "switch-es" ∧
  field (doc (handle asciiToUpperCase mainProcess (Click "switch-es")
                capturing_toggle_bar)) "switch-es" = "Recording..." ∧
  defaultHotkeys !! "toggle-bar" =
    Some (field (doc (handle asciiToUpperCase mainProcess (Click "switch-es")
                        capturing_toggle_bar)) "toggle-bar") ∧
  marked (doc (handle asciiToUpperCase mainProcess (Click "switch-es")
                 capturing_toggle_bar)) "toggle-bar" = false.
Proof.
  assert ("switch-es" ∈ hotkeyInputs) as HB
    by (apply (bool_decide_unpack _); by vm_compute).
  assert ("toggle-bar" ≠ "switch-es") as Hne by discriminate.
  destruct (recording_session_single_slot asciiToUpperCase mainProcess None
              [DOMContentLoaded; Click "toggle-bar"])
    as (_ & _ & H & _).
  destruct (H "switch-es" HB) as (Hs & Hf & _ & Hprev & _).
  assert (session capturing_toggle_bar = Some "toggle-bar") as Hses
    by (by vm_compute).
  assert (field (doc capturing_toggle_bar) "toggle-bar" = "Recording...")
    as Hp by (by vm_compute).
  destruct (Hprev "toggle-bar" Hses Hne) as (Hm & Hd & _).
  split; [exact Hs|]. split; [exact Hf|]. split; [exact (Hd Hp)|exact Hm].
Defined.

(** ** What goes over the bridge *)

Lemma loadHotkeys_log (gw : Handler) (w : World) :
  ipc_log (loadHotkeys gw w) = ("get-settings", None) :: ipc_log w.
Proof.
  unfold loadHotkeys, try_catch. rewrite M_bind_unfold.
  rewrite window_api_getSettings.
  destruct (gw "get-settings" None (store w)) as [[r|err] blob]; [|done].
  cbv beta iota zeta.
  by match goal with
     | |- context [object_entries ?v] => destruct (object_entries v)
     end.
Qed.

Lemma saveSettings_log (gw : Handler) (f : MainForm) (w : World) :
  ipc_log (saveSettings gw f w) =
    ("save-settings", Some (main_settings f)) :: ipc_log w.
Proof.
  unfold saveSettings, try_catch. rewrite M_bind_unfold.
  rewrite window_api_saveSettings.
  by destruct (gw "save-settings" _ (store w)) as [[r|err] blob].
Qed.

Lemma keydown_log (up : string → string) (e : KeyEvent) (w : World) :
  ipc_log (keydown up e w) = ipc_log w.
Proof.
  unfold keydown. destruct (isRecording w); [|done]. cbn [negb].
  destruct (hotkeyString up e); [|done].
  cbn [currentInput with_prevented]. by destruct (currentInput w).
Qed.

(** X13. Whatever the user does in the dialog and whatever the main process
    answers, the only messages the dialog (and a save of the main window)
    puts on the bridge are reads and writes of the settings: no message
    that asks the host to close, minimise or maximise a window is ever
    sent. *)
Theorem dialog_bridge_traffic
    (toUpperCase : string → string) (gw : Handler)
    (blob : option Blob) (evs : list Event) :
  Forall (fun m => m.1 = "get-settings" ∨ m.1 = "save-settings")
         (ipc_log (run toUpperCase gw evs (init blob))).
Proof.
  assert (∀ w, Forall (fun m : string * option Blob =>
                 m.1 = "get-settings" ∨ m.1 = "save-settings") (ipc_log w) →
               Forall (fun m : string * option Blob =>
                 m.1 = "get-settings" ∨ m.1 = "save-settings")
                 (ipc_log (run toUpperCase gw evs w))) as Hrun.
  { induction evs as [|ev evs IH]; intros w Hw; [done|].
    apply IH. destruct ev as [id|id|e|c| | |f]; cbn [handle].
    - case_bool_decide; [|done]. unfold startRecording.
      by destruct (isRecording w).
    - by case_bool_decide.
    - by rewrite keydown_log.
    - by destruct c.
    - destruct (saveHotkeys_messages gw w) as [r [-> | ->]];
        repeat constructor; by auto.
    - rewrite loadHotkeys_log. constructor; by auto.
    - cbn [ipc_log with_host]. rewrite saveSettings_log.
      constructor; by auto. }
  apply Hrun. cbn [ipc_log init]. constructor.
Qed.

(** * The listeners of the bridge *)

Lemma remove_first_absent {A} `{EqDecision A} (x : A) (l : list A) :
  x ∉ l → remove_first x l = l.
Proof.
  induction l as [|y l IH]; [done|]. intros Hx. cbn [remove_first].
  apply not_elem_of_cons in Hx as [Hxy Hx].
  rewrite decide_False by done. by rewrite IH.
Qed.

Lemma removeListener_page (channel : string) (f : Callback)
    (ls : list (string * Listener)) :
  (∀ c l, (c, l) ∈ ls → ∃ n g, l = Forward n g) →
  removeListener channel (Page f) ls = ls.
Proof.
  intros Hfw. unfold removeListener.
  rewrite remove_first_absent; [apply reverse_involutive|].
  rewrite elem_of_reverse. intros Hin.
  by destruct (Hfw _ _ Hin) as (n & g & ?).
Qed.

Lemma invoked_app (channel : string) ls1 ls2 n :
  invoked channel {| listeners := ls1 ++ ls2; arrows := n |} =
    (invoked channel {| listeners := ls1; arrows := n |} ++
     invoked channel {| listeners := ls2; arrows := n |})%list.
Proof. unfold invoked. cbn [listeners]. apply omap_app. Qed.

Lemma bridge_calls_cons (c : BridgeCall) (cs : list BridgeCall) (em : Emitter) :
  bridge_calls (c :: cs) em = bridge_calls cs (bridge_call c em).
Proof. reflexivity. Qed.

Lemma bridge_calls_invoked (channel : string) (cs : list BridgeCall)
    (em : Emitter) :
  (∀ c l, (c, l) ∈ listeners em → ∃ n g, l = Forward n g) →
  invoked channel (bridge_calls cs em) =
    (invoked channel em ++
     (if bool_decide (channel ∈ validChannels) then subscribed channel cs
      else []))%list.
Proof.
  revert em. induction cs as [|[c f|c f] cs IH]; intros em Hfw.
  - cbn [bridge_calls foldl subscribed omap]. case_bool_decide;
      by rewrite app_nil_r.
  - rewrite bridge_calls_cons. cbn [bridge_call]. unfold api_on.
    destruct (bool_decide (c ∈ validChannels)) eqn:Hc.
    + apply bool_decide_eq_true in Hc. rewrite IH.
      * rewrite invoked_app, <- app_assoc.
        replace (invoked channel
                   {| listeners := listeners em; arrows := S (arrows em) |})
          with (invoked channel em) by done.
        f_equal. unfold invoked, subscribed. cbn [listeners omap].
        destruct (decide (c = channel)) as [->|Hne].
        -- rewrite !bool_decide_eq_true_2 by done.
           cbn [omap list_omap]. by rewrite !decide_True by done.
        -- cbn [omap list_omap]. rewrite !decide_False by done.
           by case_bool_decide.
      * cbn [listeners].
        intros c' l [Hin|Hin%list_elem_of_singleton]%elem_of_app;
          [by eapply Hfw|]. injection Hin as -> ->. by eexists _, _.
    + apply bool_decide_eq_false in Hc. rewrite IH by done. f_equal.
      case_bool_decide as Hch; [|done].
      unfold subscribed. cbn [omap list_omap].
      rewrite decide_False; [done|]. by intros ->.
  - rewrite bridge_calls_cons. cbn [bridge_call]. unfold api_off.
    destruct (bool_decide (c ∈ validChannels)) eqn:Hc.
    + rewrite removeListener_page by done.
      rewrite IH by done. by destruct em.
    + by rewrite IH.
Qed.

(** X14. Starting with no listeners, after any calls of [on] and [off]
    through the bridge, a message on one of the two valid channels runs
    every callback ever passed to [on] for that channel, in the order of
    the calls: calls of [off] remove nothing, since what [on] registered is
    a new arrow function and not the callback itself.  A message on any
    other channel runs nothing. *)
Theorem bridge_off_removes_nothing (channel : string) (cs : list BridgeCall) :
  invoked channel (bridge_calls cs empty_emitter) =
    if bool_decide (channel ∈ validChannels) then subscribed channel cs
    else [].
Proof.
  rewrite bridge_calls_invoked; [done|].
  intros c l Hin. by apply elem_of_nil in Hin.
Qed.

(** ** The handlers of main.js *)

(** X25. Every channel that a method of the bridge invokes has a handler in
    main.js, and no other channel has one; every call but the write of the
    settings is answered and leaves what is persisted as it is; the write
    of an object replaces what is persisted by that object as a whole.
    The list of microphones is always empty. *)
Theorem ipcMain_handle_channels (arg persisted : option Blob) :
  (∀ name channel, (name, Invoke channel) ∈ api →
     ∃ r persisted',
       ipcMain_handle channel arg persisted = Some (r, persisted') ∧
       (channel ≠ "save-settings" →
          persisted' = persisted ∧ ∃ v, r = Resolved v)) ∧
  ipcMain_handle "get-settings" arg persisted
    = Some (Resolved (RSettings persisted), persisted) ∧
  (∀ settings,
     ipcMain_handle "save-settings" (Some settings) persisted
       = Some (Resolved RTrue, Some settings)) ∧
  ipcMain_handle "get-microphones" arg persisted
    = Some (Resolved (RMicrophones []), persisted) ∧
  (∀ channel,
     channel ∉ ["get-settings"; "save-settings"; "get-microphones";
                "test-microphone"; "test-service"; "start-dictation";
                "stop-dictation"] →
     ipcMain_handle channel arg persisted = None).
Proof.
  split; [|split; [done|split; [done|split; [done|]]]].
  2: { intros channel Hno. unfold ipcMain_handle.
       repeat (apply not_elem_of_cons in Hno as [Hne Hno];
               apply String.eqb_neq in Hne; rewrite Hne; clear Hne).
       done. }
  intros name channel Hin. unfold api in Hin.
  repeat (apply elem_of_cons in Hin as [Hin|Hin];
          [try discriminate Hin; injection Hin as -> ->|]);
    [..|by apply elem_of_nil in Hin].
  all: try (eexists _, _; split; [reflexivity|];
            intros _; split; [reflexivity|by eexists]).
  destruct arg; eexists _, _; (split; [reflexivity|done]).
Qed.

(** * The main window *)

(** ** Settings written and read back *)

Lemma loadSettings_resolved (gw : Handler) (ui : SettingsUI) (w : World)
    (b : Blob) (blob' : option Blob) :
  gw "get-settings" None (store w) = (Resolved (Some b), blob') →
  loadSettings gw ui w =
    (apply_settings b ui,
     with_host blob' (("get-settings", None) :: ipc_log w) w).
Proof.
  intros Hgw. unfold loadSettings. rewrite M_bind_unfold.
  by rewrite window_api_getSettings, Hgw.
Qed.

Lemma option_nonempty (options : list string) (s : string) :
  s ∈ options → "" ∉ options →
  select_value options (to_value_string (js_or (JStr s) (JStr (default "" (head options))))) = s.
Proof.
  intros Hs Hne. unfold js_or. cbn [truthy].
  assert (s ≠ "") as Hs' by (intros ->; done).
  apply String.eqb_neq in Hs' as ->. cbn [negb to_value_string].
  unfold select_value. by rewrite bool_decide_eq_true_2.
Qed.

(** X15. With main.js behind the bridge, what a save of the main window
    wrote is what a load shows, when the two selects held one of their
    options at the save and the four text fields held, as inputs do, no
    line break: the three checkboxes and the two selects come back as
    saved, and each of the four text fields comes back as saved unless it
    was saved empty, in which case the field of the loading window keeps
    what it held.  Loaded into a main window as its markup has it, the
    controls are exactly the saved ones. *)
Theorem saveSettings_loadSettings_roundtrip
    (f : MainForm) (ui : SettingsUI) (w : World) :
  outputLanguage f ∈ languageOptions →
  recognitionService f ∈ serviceOptions →
  single_line_texts f →
  let f' := form (loadSettings mainProcess ui
                    (saveSettings mainProcess f w)).1 in
  interactionSounds f' = interactionSounds f ∧
  muteAudio f' = muteAudio f ∧
  autoLearn f' = autoLearn f ∧
  outputLanguage f' = outputLanguage f ∧
  recognitionService f' = recognitionService f ∧
  whisperKey f' =
    (if String.eqb (whisperKey f) "" then whisperKey (form ui)
     else whisperKey f) ∧
  azureKey f' =
    (if String.eqb (azureKey f) "" then azureKey (form ui) else azureKey f) ∧
  azureRegion f' =
    (if String.eqb (azureRegion f) "" then azureRegion (form ui)
     else azureRegion f) ∧
  googleCredentials f' =
    (if String.eqb (googleCredentials f) "" then googleCredentials (form ui)
     else googleCredentials f) ∧
  (form ui = form initial_settings_ui → f' = f).
Proof.
  intros Hlang Hserv (Hw & Hk & Hr & Hg) f'.
  assert (f' = form (apply_settings (main_settings f) ui)) as Hf'.
  { unfold f'.
    by rewrite (loadSettings_resolved mainProcess ui
                  (saveSettings mainProcess f w) (main_settings f)
                  (Some (main_settings f)) (mainProcess_get _ _)). }
  assert (outputLanguage f' = outputLanguage f) as Hl.
  { rewrite Hf'. cbn [form apply_settings outputLanguage].
    apply (option_nonempty languageOptions); [done|].
    apply (bool_decide_unpack _). by vm_compute. }
  assert (recognitionService f' = recognitionService f) as Hs.
  { rewrite Hf'. cbn [form apply_settings recognitionService].
    apply (option_nonempty serviceOptions); [done|].
    apply (bool_decide_unpack _). by vm_compute. }
  assert (∀ s old, single_line s →
                   assign_if_truthy (JStr s) old =
                   if String.eqb s "" then old else s) as Hkey.
  { intros s old Hline. unfold assign_if_truthy. cbn [truthy to_value_string].
    rewrite Hline. by destruct (String.eqb s ""). }
  assert (interactionSounds f' = interactionSounds f) as H1.
  { rewrite Hf'. cbn. by destruct (interactionSounds f). }
  assert (muteAudio f' = muteAudio f) as H2.
  { rewrite Hf'. cbn. by destruct (muteAudio f). }
  assert (autoLearn f' = autoLearn f) as H3.
  { rewrite Hf'. cbn. by destruct (autoLearn f). }
  assert (whisperKey f' = if String.eqb (whisperKey f) "" then
            whisperKey (form ui) else whisperKey f) as H4.
  { rewrite Hf'. by apply Hkey. }
  assert (azureKey f' = if String.eqb (azureKey f) "" then
            azureKey (form ui) else azureKey f) as H5.
  { rewrite Hf'. by apply Hkey. }
  assert (azureRegion f' = if String.eqb (azureRegion f) "" then
            azureRegion (form ui) else azureRegion f) as H6.
  { rewrite Hf'. by apply Hkey. }
  assert (googleCredentials f' = if String.eqb (googleCredentials f) "" then
            googleCredentials (form ui) else googleCredentials f) as H7.
  { rewrite Hf'. by apply Hkey. }
  repeat (split; [done|]).
  intros Hinit. rewrite Hinit in H4, H5, H6, H7.
  cbn [form initial_settings_ui whisperKey azureKey azureRegion
       googleCredentials] in H4, H5, H6, H7.
  destruct f' as [a1 a2 a3 a4 a5 a6 a7 a8 a9], f as [b1 b2 b3 b4 b5 b6 b7 b8 b9].
  cbn in *. subst a1 a2 a3 a4 a5.
  f_equal.
  - rewrite H4. by destruct (String.eqb b6 "") eqn:E;
      [apply String.eqb_eq in E|].
  - rewrite H5. by destruct (String.eqb b7 "") eqn:E;
      [apply String.eqb_eq in E|].
  - rewrite H6. by destruct (String.eqb b8 "") eqn:E;
      [apply String.eqb_eq in E|].
  - rewrite H7. by destruct (String.eqb b9 "") eqn:E;
      [apply String.eqb_eq in E|].
Qed.

Lemma show_service_lookup (service : string) (p : gmap string string) id :
  show_service service p !! id =
    if decide (id ∈ serviceSettings)
    then Some (if String.eqb id (service ++ "-settings")
               then "block" else "none")
    else p !! id.
Proof.
  unfold show_service.
  apply (foldl_insert_lookup
           (fun id => if String.eqb id (service ++ "-settings")
                      then "block" else "none")).
Qed.

(** X16. Loading a blob that holds none of the nine keys of the main window
    (such as the blob a first save of the hotkey dialog leaves) sets the
    controls to their fallbacks: both sound checkboxes off, auto-learn on,
    language [en-US], service [whisper], the four text fields as they were,
    and the Whisper block on display with the other two hidden. *)
Theorem loadSettings_fallbacks
    (gw : Handler) (ui : SettingsUI) (w : World) (b : Blob)
    (blob' : option Blob) :
  gw "get-settings" None (store w) = (Resolved (Some b), blob') →
  (∀ k, k ∈ settingsKeys → b !! k = None) →
  let ui' := (loadSettings gw ui w).1 in
  form ui' =
    {| interactionSounds := false; muteAudio := false; autoLearn := true;
       outputLanguage := "en-US"; recognitionService := "whisper";
       whisperKey := whisperKey (form ui); azureKey := azureKey (form ui);
       azureRegion := azureRegion (form ui);
       googleCredentials := googleCredentials (form ui) |} ∧
  panels ui' !! "whisper-settings" = Some "block" ∧
  panels ui' !! "azure-settings" = Some "none" ∧
  panels ui' !! "google-settings" = Some "none".
Proof.
  intros Hgw Hnone ui'. unfold ui'.
  rewrite (loadSettings_resolved gw ui w b blob' Hgw). cbn [fst].
  assert (∀ k, k ∈ settingsKeys → prop b k = JUndefined) as Hp.
  { intros k Hk. unfold prop. by rewrite Hnone. }
  assert (form (apply_settings b ui) =
    {| interactionSounds := false; muteAudio := false; autoLearn := true;
       outputLanguage := "en-US"; recognitionService := "whisper";
       whisperKey := whisperKey (form ui); azureKey := azureKey (form ui);
       azureRegion := azureRegion (form ui);
       googleCredentials := googleCredentials (form ui) |}) as Hform.
  { unfold apply_settings. cbn [form].
    rewrite !Hp by (apply (bool_decide_unpack _); by vm_compute).
    reflexivity. }
  split; [done|].
  unfold apply_settings in *. cbn [form panels] in *.
  rewrite Hform. cbn [recognitionService].
  rewrite !show_service_lookup. by repeat split.
Qed.

Lemma loadSettings_fallbacks_witness :
  form (loadSettings mainProcess initial_settings_ui
          (saveHotkeys mainProcess (loadHotkeys mainProcess (init None)))).1
    = form initial_settings_ui.
Proof.
  assert (∀ k, k ∈ settingsKeys →
            ({[ "hotkeys" := JObj (JStr <$> defaultHotkeys) ]} : Blob) !! k
              = None) as Hnone.
  { intros k Hk.
    assert (Forall (fun k =>
              ({[ "hotkeys" := JObj (JStr <$> defaultHotkeys) ]} : Blob) !! k
                = None) settingsKeys) as HF
      by (unfold settingsKeys; repeat constructor).
    exact (proj1 (Forall_forall _ _) HF k Hk). }
  exact (proj1 (loadSettings_fallbacks mainProcess initial_settings_ui
                  (saveHotkeys mainProcess
                     (loadHotkeys mainProcess (init None)))
                  {[ "hotkeys" := JObj (JStr <$> defaultHotkeys) ]}
                  _ eq_refl Hnone)).
Defined.

(** X17. After a load over a persisted blob, the service select holds one
    of its three options or nothing, each service block is on display
    exactly when it is the block of the selected service, and the block of a
    selected service is on display.  A persisted service that is no option
    of the select leaves the select empty and all three blocks hidden. *)
Theorem loadSettings_service_panels
    (gw : Handler) (ui : SettingsUI) (w : World) (b : Blob)
    (blob' : option Blob) :
  gw "get-settings" None (store w) = (Resolved (Some b), blob') →
  let ui' := (loadSettings gw ui w).1 in
  let service := recognitionService (form ui') in
  (service ∈ serviceOptions ∨ service = "") ∧
  (∀ id, id ∈ serviceSettings →
     ∃ d, panels ui' !! id = Some d ∧
          (d = "block" ↔ id = service ++ "-settings") ∧
          (d = "none" ↔ id ≠ service ++ "-settings")) ∧
  (service ∈ serviceOptions →
     panels ui' !! (service ++ "-settings") = Some "block") ∧
  (to_value_string (js_or (prop b "recognitionService") (JStr "whisper"))
     ∉ serviceOptions →
   service = "" ∧
   ∀ id, id ∈ serviceSettings → panels ui' !! id = Some "none").
Proof.
  intros Hgw ui' service. unfold service, ui'.
  rewrite (loadSettings_resolved gw ui w b blob' Hgw).
  cbn [fst form panels apply_settings recognitionService].
  set (v := to_value_string
              (js_or (prop b "recognitionService") (JStr "whisper"))).
  assert (select_value serviceOptions v ∈ serviceOptions ∨
          select_value serviceOptions v = "") as Hsel.
  { unfold select_value. case_bool_decide; by auto. }
  split; [done|]. split; [|split].
  - intros id Hid. rewrite show_service_lookup, decide_True by done.
    eexists. split; [done|].
    destruct (String.eqb id _) eqn:E.
    + apply String.eqb_eq in E. by split; split.
    + apply String.eqb_neq in E. by split; split.
  - intros Hin. rewrite show_service_lookup.
    assert (select_value serviceOptions v ++ "-settings" ∈ serviceSettings)
      as Hid.
    { revert Hin. generalize (select_value serviceOptions v). intros s Hs.
      unfold serviceOptions in Hs.
      repeat (apply elem_of_cons in Hs as [->|Hs]);
        [..|by apply elem_of_nil in Hs];
        apply (bool_decide_unpack _); by vm_compute. }
    rewrite decide_True by done. by rewrite String.eqb_refl.
  - intros Hv. unfold select_value. rewrite bool_decide_eq_false_2 by done.
    split; [done|]. intros id Hid.
    rewrite show_service_lookup, decide_True by done.
    unfold serviceSettings in Hid.
    repeat (apply elem_of_cons in Hid as [->|Hid]);
      [..|by apply elem_of_nil in Hid]; reflexivity.
Qed.

Lemma saveSettings_loadSettings_roundtrip_witness :
  form (loadSettings mainProcess initial_settings_ui
          (saveSettings mainProcess sample_form (init None))).1 = sample_form.
Proof.
  assert ("pt-BR" ∈ languageOptions) as Hl
    by (apply (bool_decide_unpack _); vm_compute; exact I).
  assert ("azure" ∈ serviceOptions) as Hs
    by (apply (bool_decide_unpack _); vm_compute; exact I).
  assert (single_line_texts sample_form) as Ht by (by vm_compute).
  pose proof (saveSettings_loadSettings_roundtrip sample_form
                initial_settings_ui (init None) Hl Hs Ht) as H.
  cbv zeta in H. apply H. reflexivity.
Defined.

(** A persisted service that the select does not offer. *)
Lemma loadSettings_service_panels_witness :
  recognitionService
    (form (loadSettings mainProcess initial_settings_ui
             (init (Some {[ "recognitionService" := JStr "bing" ]}))).1) = "" ∧
  panels (loadSettings mainProcess initial_settings_ui
            (init (Some {[ "recognitionService" := JStr "bing" ]}))).1
    !! "whisper-settings" = Some "none".
Proof.
  assert ("bing" ∉ serviceOptions) as Hb
    by (apply (bool_decide_unpack _); vm_compute; exact I).
  assert ("whisper-settings" ∈ serviceSettings) as Hw
    by (apply (bool_decide_unpack _); vm_compute; exact I).
  pose proof (loadSettings_service_panels mainProcess initial_settings_ui
                (init (Some {[ "recognitionService" := JStr "bing" ]}))
                {[ "recognitionService" := JStr "bing" ]} _ eq_refl)
    as (_ & _ & _ & H).
  destruct (H Hb) as [H1 H2]. split; [exact H1|exact (H2 _ Hw)].
Defined.

(** ** Navigation and tabs *)

Lemma activate_only_lookup (items : list string) (item : string)
    (m : gmap string bool) (p : string) :
  p ∈ items → activate_only items item m !! p = Some (bool_decide (p = item)).
Proof.
  intros Hp. unfold activate_only.
  destruct (decide (p = item)) as [->|Hne].
  - by rewrite lookup_insert_eq, bool_decide_eq_true_2.
  - rewrite lookup_insert_ne by done.
    rewrite (foldl_insert_lookup (fun _ => false)), decide_True by done.
    by rewrite bool_decide_eq_false_2.
Qed.

Lemma chrome_inv_initial : chrome_inv initial_chrome.
Proof.
  split.
  - exists "settings". split; [apply (bool_decide_unpack _); by vm_compute|].
    intros p Hp. unfold navItems in Hp.
    repeat (apply elem_of_cons in Hp as [->|Hp]);
      [..|by apply elem_of_nil in Hp]; reflexivity.
  - exists "general". split; [apply (bool_decide_unpack _); by vm_compute|].
    split.
    + intros t Ht. unfold tabs in Ht.
      repeat (apply elem_of_cons in Ht as [->|Ht]);
        [..|by apply elem_of_nil in Ht]; reflexivity.
    + intros id Hid. unfold tabContents in Hid.
      repeat (apply elem_of_cons in Hid as [->|Hid]);
        [..|by apply elem_of_nil in Hid];
        (eexists; split; [reflexivity|]); by split.
Qed.

Lemma chrome_inv_handle (ev : ChromeEvent) (c : Chrome) :
  chrome_inv c → chrome_inv (chrome_handle ev c).
Proof.
  intros [Hnav Htab]. destruct ev as [page|tabName]; cbn [chrome_handle];
    case_bool_decide as Hin; [|done| |done].
  - split; [|done]. exists page. split; [done|].
    intros p Hp. cbn [click_nav navActive]. by apply activate_only_lookup.
  - split; [done|]. exists tabName. split; [done|]. split.
    + intros t Ht. cbn [click_tab tabActive]. by apply activate_only_lookup.
    + intros id Hid. cbn [click_tab contentDisplay].
      rewrite (foldl_insert_lookup
                 (fun id => if String.eqb id (tabName ++ "-tab")
                            then "block" else "none")).
      rewrite decide_True by done. eexists. split; [done|].
      destruct (String.eqb id _) eqn:E.
      * apply String.eqb_eq in E. by split.
      * apply String.eqb_neq in E. by split.
Qed.

(** X18. Whatever is clicked in the side bar and on the tabs of the main
    window, exactly one navigation item and exactly one tab hold the class
    ['active'], and a tab content is on display exactly when it is the
    content of the active tab. *)
Theorem chrome_one_active (evs : list ChromeEvent) :
  chrome_inv (chrome_run evs initial_chrome).
Proof.
  unfold chrome_run.
  generalize chrome_inv_initial. generalize initial_chrome.
  induction evs as [|ev evs IH]; intros c Hc; [done|].
  cbn [foldl]. by apply IH, chrome_inv_handle.
Qed.

(** ** The microphone picker *)

(** X19. A reload of the microphones that succeeds replaces the options by
    the placeholder followed by the microphones in the order received,
    whatever the list held, and selects the placeholder, so that the
    previous choice is forgotten and a second reload with the same answer
    changes nothing more.  A rejected call leaves the picker as it was; an
    [undefined] reply leaves the placeholder alone.  Either failure is
    logged once. *)
Theorem loadMicrophones_replaces_options
    (reply : Reply (option (list Mic))) (p : MicPicker) (w : World) :
  let p' := (loadMicrophones reply p w).1 in
  let w' := (loadMicrophones reply p w).2 in
  ipc_log w' = ("get-microphones", None) :: ipc_log w ∧
  match reply with
  | Resolved (Some mics) =>
      micOptions p' =
        mic_placeholder :: map (fun m => (mic_id m, mic_name m)) mics ∧
      length (micOptions p') = S (length mics) ∧
      mic_value p' = "" ∧
      (loadMicrophones reply p' w').1 = p' ∧
      console w' = console w
  | Resolved None =>
      micOptions p' = [mic_placeholder] ∧ mic_value p' = "" ∧
      length (console w') = S (length (console w))
  | Rejected e =>
      p' = p ∧
      console w' = ("Error loading microphones: " ++ e) :: console w
  end.
Proof.
  destruct reply as [[mics|]|e]; cbn; repeat split.
  change (S (length (map (fun m => (mic_id m, mic_name m)) mics))
            = S (length mics)).
  by rewrite length_map.
Qed.

(** X20. Picking a microphone shows the text of its option in the status
    line (its name with ASCII whitespace stripped and collapsed) and makes
    the main window save its settings, but what is written is the object of
    the nine controls: it is the same whichever microphone is picked, so
    the choice is not persisted.  Picking the placeholder (or an entry
    whose id is empty) sends nothing and leaves the status line. *)
Theorem pick_mic_not_persisted
    (gw : Handler) (f : MainForm) (i : nat) (p : MicPicker) (w : World)
    (deviceId text : string) :
  micOptions p !! i = Some (deviceId, text) →
  let p' := (pick_mic gw f i p w).1 in
  let w' := (pick_mic gw f i p w).2 in
  (deviceId ≠ "" →
     micStatus p' = "Mic in use: " ++ option_text text ∧
     mic_value p' = deviceId ∧
     ipc_log w' = ("save-settings", Some (main_settings f)) :: ipc_log w ∧
     w' = saveSettings gw f w ∧
     dom (main_settings f) = list_to_set settingsKeys) ∧
  (deviceId = "" → micStatus p' = micStatus p ∧ w' = w).
Proof.
  intros Hi p' w'. unfold p', w', pick_mic. rewrite Hi.
  split.
  - intros Hne. apply String.eqb_neq in Hne as ->. cbn [negb fst snd].
    unfold mic_value. cbn [micOptions micIndex micStatus]. rewrite Hi.
    split; [reflexivity|]. split; [reflexivity|].
    split; [apply saveSettings_log|]. split; [reflexivity|].
    apply set_eq. intros k. rewrite elem_of_dom, elem_of_list_to_set.
    unfold main_settings, settingsKeys. split.
    + intros [v Hv]. apply elem_of_list_to_map_2 in Hv.
      repeat (apply elem_of_cons in Hv as [[= -> _]|Hv]);
        [..|by apply elem_of_nil in Hv];
        apply (bool_decide_unpack _); by vm_compute.
    + intros Hk.
      repeat (apply elem_of_cons in Hk as [->|Hk]);
        [..|by apply elem_of_nil in Hk]; by eexists.
  - intros ->. done.
Qed.

(** * The installer build script *)

(** Membership in a closed list, decided by evaluation. *)
Ltac closed_elem :=
  match goal with
  | |- _ ∈ _ => apply (bool_decide_unpack _); by vm_compute
  | |- _ ∉ _ => apply (bool_decide_unpack _); by vm_compute
  | H : _ ∈ _ |- _ =>
      exfalso; apply (bool_decide_pack _) in H; vm_compute in H; exact H
  end.

(** The four ways through the script. *)
Lemma build_cases (errorlevel : Command → Z) :
  (errorlevel CleanKeys ≠ 0%Z ∧
   build errorlevel =
     {| steps := [Say Banner; Say Step1; Run CleanKeys; Say ErrClean];
        failed := true; exit_code := 1 |}) ∨
  (errorlevel CleanKeys = 0%Z ∧ errorlevel PyInstaller ≠ 0%Z ∧
   build errorlevel =
     {| steps := [Say Banner; Say Step1; Run CleanKeys; Say Step2;
                  Run PyInstaller; Say ErrBuild; Run RestoreKeys];
        failed := true; exit_code := 1 |}) ∨
  (errorlevel CleanKeys = 0%Z ∧ errorlevel PyInstaller = 0%Z ∧
   errorlevel Makensis ≠ 0%Z ∧
   build errorlevel =
     {| steps := [Say Banner; Say Step1; Run CleanKeys; Say Step2;
                  Run PyInstaller; Say Step3; Run Makensis;
                  Say ErrInstaller; Run RestoreKeys];
        failed := true; exit_code := 1 |}) ∨
  (errorlevel CleanKeys = 0%Z ∧ errorlevel PyInstaller = 0%Z ∧
   errorlevel Makensis = 0%Z ∧
   build errorlevel =
     {| steps := [Say Banner; Say Step1; Run CleanKeys; Say Step2;
                  Run PyInstaller; Say Step3; Run Makensis;
                  Say Step4; Run RestoreKeys; Say Done; Say Where];
        failed := false; exit_code := errorlevel RestoreKeys |}).
Proof.
  unfold build.
  destruct (Z.eqb_spec (errorlevel CleanKeys) 0) as [Hc|Hc]; [|by left].
  destruct (Z.eqb_spec (errorlevel PyInstaller) 0) as [Hp|Hp];
    [|by right; left].
  destruct (Z.eqb_spec (errorlevel Makensis) 0) as [Hm|Hm];
    [|by right; right; left].
  by right; right; right.
Qed.

(** X21. For every outcome of the programs the script starts: the script
    leaves through [exit /b 1], with exit code 1, exactly when cleaning the
    keys, PyInstaller or makensis ends with a non-zero [ERRORLEVEL];
    otherwise it prints the success banner and ends with the [ERRORLEVEL]
    of the restore, which it never looks at.  Each program runs only if the
    ones before it succeeded; once the keys were cleaned, the restore runs
    exactly once and is the last program started, on either path; when
    cleaning fails nothing else is started.  What is printed and started
    does not depend on the outcome of the restore. *)
Theorem build_restores_keys (errorlevel : Command → Z) :
  let r := build errorlevel in
  (failed r = true ↔
     errorlevel CleanKeys ≠ 0%Z ∨ errorlevel PyInstaller ≠ 0%Z
     ∨ errorlevel Makensis ≠ 0%Z) ∧
  exit_code r = (if failed r then 1%Z else errorlevel RestoreKeys) ∧
  (Run PyInstaller ∈ steps r ↔ errorlevel CleanKeys = 0%Z) ∧
  (Run Makensis ∈ steps r ↔
     errorlevel CleanKeys = 0%Z ∧ errorlevel PyInstaller = 0%Z) ∧
  (errorlevel CleanKeys = 0%Z →
     ∃ before, started r = (before ++ [RestoreKeys])%list ∧
               RestoreKeys ∉ before) ∧
  (errorlevel CleanKeys ≠ 0%Z → started r = [CleanKeys]) ∧
  (Say Done ∈ steps r ↔ failed r = false) ∧
  (∀ errorlevel',
     (∀ c, c ≠ RestoreKeys → (errorlevel' c = 0%Z ↔ errorlevel c = 0%Z)) →
     steps (build errorlevel') = steps r ∧
     failed (build errorlevel') = failed r).
Proof.
  intros r. subst r.
  assert (∀ errorlevel',
     (∀ c, c ≠ RestoreKeys → (errorlevel' c = 0%Z ↔ errorlevel c = 0%Z)) →
     steps (build errorlevel') = steps (build errorlevel) ∧
     failed (build errorlevel') = failed (build errorlevel)) as Hsame.
  { intros errorlevel' H'.
    pose proof (H' CleanKeys ltac:(done)) as H1.
    pose proof (H' PyInstaller ltac:(done)) as H2.
    pose proof (H' Makensis ltac:(done)) as H3.
    destruct (build_cases errorlevel)
      as [(Hc & ->)|[(Hc & Hp & ->)|[(Hc & Hp & Hm & ->)|(Hc & Hp & Hm & ->)]]];
    destruct (build_cases errorlevel')
      as [(Hc' & ->)|[(Hc' & Hp' & ->)|[(Hc' & Hp' & Hm' & ->)
                                       |(Hc' & Hp' & Hm' & ->)]]];
    cbn [steps failed]; first [done | exfalso; tauto]. }
  revert Hsame.
  destruct (build_cases errorlevel)
    as [(Hc & ->)|[(Hc & Hp & ->)|[(Hc & Hp & Hm & ->)|(Hc & Hp & Hm & ->)]]];
    cbn [steps failed exit_code started omap list_omap]; intros Hsame.
  all: (split; [split; [first [tauto | by intros]|first [tauto | by intros]]|]).
  all: (split; [done|]).
  all: (split; [split; [intros Hin; first [done | closed_elem]
                    |intros; first [closed_elem | done]]|]).
  all: (split; [split; [intros Hin; first [tauto | closed_elem]
                    |intros; first [closed_elem | tauto]]|]).
  all: (split; [intros Hz; first [done |
               exists [CleanKeys; PyInstaller; Makensis];
                 split; [reflexivity|closed_elem] |
               exists [CleanKeys; PyInstaller];
                 split; [reflexivity|closed_elem]]|]).
  all: (split; [intros; first [reflexivity | done]|]).
  all: (split; [split; [intros Hin; first [done | closed_elem]
                    |intros; first [closed_elem | done]]|]).
  all: exact Hsame.
Qed.

(** The three programs succeed and the restore ends with [ERRORLEVEL] 2:
    the success banner is printed and the script ends with exit code 2. *)
Lemma build_restores_keys_witness :
  Say Done ∈ steps (build restore_fails) ∧
  failed (build restore_fails) = false ∧
  exit_code (build restore_fails) = 2%Z.
Proof.
  destruct (build_restores_keys restore_fails)
    as (Hf & He & _ & _ & _ & _ & Hd & _).
  assert (failed (build restore_fails) = false) as Hfalse.
  { destruct (failed (build restore_fails)) eqn:E; [|done].
    destruct (proj1 Hf eq_refl) as [H|[H|H]]; by destruct H. }
  split; [by apply Hd|]. split; [done|].
  rewrite He, Hfalse. reflexivity.
Defined.

Lemma pick_mic_not_persisted_witness :
  micStatus (pick_mic mainProcess sample_form 2 sample_picker (init None)).1
    = "Mic in use: USB Mic" ∧
  ipc_log (pick_mic mainProcess sample_form 2 sample_picker (init None)).2
    = [("save-settings", Some (main_settings sample_form))].
Proof.
  assert ("usb-1" ≠ "") as Hne by discriminate.
  pose proof (pick_mic_not_persisted mainProcess sample_form 2 sample_picker
                (init None) "usb-1" "USB Mic" eq_refl) as [H _].
  destruct (H Hne) as (Hs & _ & Hl & _). split; [exact Hs|exact Hl].
Defined.

(** * What the main window persists *)

Lemma main_run_snoc (gw : Handler) (evs : list MainEvent) (ev : MainEvent)
    (s : SettingsUI * World) :
  main_run gw (evs ++ [ev]) s = main_handle gw ev (main_run gw evs s).
Proof. unfold main_run. by rewrite foldl_app. Qed.

Lemma saveSettings_store (f : MainForm) (w : World) :
  store (saveSettings mainProcess f w) = Some (main_settings f).
Proof. reflexivity. Qed.

(** X22. With main.js behind the bridge, after any sequence of what the user
    can do in the main window: if a listener has saved, the persisted blob
    is the object of the nine controls as they stood at the last event that
    saved, and otherwise the blob is untouched.  Picking a service and
    typing into a field save nothing, so right after such an event the
    persisted blob may differ from the controls; toggling a checkbox,
    picking a language or leaving a text field brings it up to date. *)
Theorem main_window_persists_last_saved
    (evs : list MainEvent) (ui : SettingsUI) (w : World) :
  let s' := main_run mainProcess evs (ui, w) in
  (∀ ev, saves ev = true →
     store (main_run mainProcess (evs ++ [ev]) (ui, w)).2 =
       Some (main_settings
               (form (main_run mainProcess (evs ++ [ev]) (ui, w)).1))) ∧
  (∀ ev, saves ev = false →
     store (main_run mainProcess (evs ++ [ev]) (ui, w)).2 = store s'.2) ∧
  (Forall (fun ev => saves ev = false) evs → store s'.2 = store w) ∧
  (∀ v, v ∈ serviceOptions →
     recognitionService
       (form (main_run mainProcess (evs ++ [PickService v]) (ui, w)).1) = v ∧
     store (main_run mainProcess (evs ++ [PickService v]) (ui, w)).2
       = store s'.2).
Proof.
  intros s'.
  assert (∀ ev s, saves ev = false →
            store (main_handle mainProcess ev s).2 = store s.2) as Hkeep.
  { intros ev [ui0 w0] Hev. destruct ev as [c b|v|v|t v|t]; try done;
      cbn [main_handle].
    - cbn [saves] in Hev. by rewrite Hev.
    - by case_bool_decide. }
  split; [|split; [|split]].
  - intros ev Hev. rewrite main_run_snoc. fold s'. destruct s' as [ui0 w0].
    destruct ev as [c b|v|v|t v|t]; try discriminate Hev;
      cbn [main_handle].
    + reflexivity.
    + cbn [saves] in Hev. rewrite Hev. reflexivity.
    + reflexivity.
  - intros ev Hev. rewrite main_run_snoc. by apply Hkeep.
  - unfold s'. clear s'. induction evs as [|ev evs IH] using rev_ind;
      [done|].
    intros [Hevs Hev]%Forall_app.
    apply (proj1 (Forall_singleton _ _)) in Hev.
    rewrite main_run_snoc. rewrite Hkeep by exact Hev. by apply IH.
  - intros v Hv. rewrite main_run_snoc. fold s'. destruct s' as [ui0 w0].
    cbn [main_handle]. by rewrite bool_decide_eq_true_2.
Qed.

Lemma loadSettings_saved_service (f : MainForm) (ui0 : SettingsUI) (w : World) :
  store w = Some (main_settings f) →
  recognitionService f ∈ serviceOptions →
  recognitionService (form (loadSettings mainProcess ui0 w).1)
    = recognitionService f.
Proof.
  intros Hst Hs.
  rewrite (loadSettings_resolved mainProcess ui0 w (main_settings f) (store w))
    by (rewrite mainProcess_get; by rewrite Hst).
  cbn [fst form apply_settings recognitionService].
  apply (option_nonempty serviceOptions); [done|].
  apply (bool_decide_unpack _). by vm_compute.
Qed.

(** X23. With main.js behind the bridge and the controls of the main window
    just saved: after the user picks another service, a main window opened
    anew still shows the service saved before, since picking a service
    saves nothing; once any listener that saves has run after the pick
    (a checkbox toggled, a language picked, a text field left), a window
    opened anew shows the service picked. *)
Theorem service_pick_lost_on_reopen
    (f : MainForm) (v : string) (ui ui0 : SettingsUI) (w : World) :
  store w = Some (main_settings f) →
  recognitionService f ∈ serviceOptions →
  v ∈ serviceOptions →
  let s1 := main_handle mainProcess (PickService v) (ui, w) in
  recognitionService (form s1.1) = v ∧
  recognitionService (form (loadSettings mainProcess ui0 s1.2).1)
    = recognitionService f ∧
  (∀ ev, saves ev = true →
     recognitionService
       (form (loadSettings mainProcess ui0
                (main_handle mainProcess ev s1).2).1) = v).
Proof.
  intros Hst Hf Hv s1. unfold s1. cbn [main_handle].
  rewrite bool_decide_eq_true_2 by done. cbn [fst snd form].
  split; [done|]. split; [by apply loadSettings_saved_service|].
  intros ev Hev.
  destruct ev as [c b|l|l|t l|t]; try discriminate Hev; cbn [main_handle].
  - apply (loadSettings_saved_service
             (set_checkbox c b (set_service v (form ui)))); done.
  - cbn [saves] in Hev. rewrite Hev.
    apply (loadSettings_saved_service
             (set_language l (set_service v (form ui)))); done.
  - apply (loadSettings_saved_service (set_service v (form ui))); done.
Qed.

Lemma service_pick_lost_on_reopen_witness :
  recognitionService
    (form (loadSettings mainProcess initial_settings_ui
             (main_handle mainProcess (PickService "google")
                (initial_settings_ui,
                 saveSettings mainProcess sample_form (init None))).2).1)
    = "azure" ∧
  recognitionService
    (form (loadSettings mainProcess initial_settings_ui
             (main_handle mainProcess (Toggle CMuteAudio true)
                (main_handle mainProcess (PickService "google")
                   (initial_settings_ui,
                    saveSettings mainProcess sample_form (init None)))).2).1)
    = "google".
Proof.
  assert ("azure" ∈ serviceOptions) as Ha
    by (apply (bool_decide_unpack _); vm_compute; exact I).
  assert ("google" ∈ serviceOptions) as Hg
    by (apply (bool_decide_unpack _); vm_compute; exact I).
  pose proof (service_pick_lost_on_reopen sample_form "google"
                initial_settings_ui initial_settings_ui
                (saveSettings mainProcess sample_form (init None))
                eq_refl Ha Hg) as (_ & Hold & Hnew).
  split; [exact Hold|exact (Hnew (Toggle CMuteAudio true) eq_refl)].
Defined.
